(** * cp-file: copying one file, asynchronously or synchronously

    A shallow embedding of [index.js].  The two entry points ([cpFile] and
    [sync]) and the asynchronous engine ([cpFileAsync]) are written as
    programs in a small state-and-exception monad.  The state is the
    filesystem (an abstract [World]) together with the log of the calls made
    to the I/O layer, so that statements about the order of the calls, and
    about calls that are never made, can be read off a run. *)

From Stdlib Require Import ZArith List String Ascii Bool Lia.
From stdpp Require Import base gmap strings.
Import ListNotations.

Local Open Scope string_scope.
Local Open Scope Z_scope.
Local Open Scope list_scope.

(** ** JavaScript values used by the program *)

(** An error object.  [err_code] and [err_errno] are the machine-readable
    properties of Node's system errors, [err_source] is the [source] property
    attached by [checkSourceIsFile], [err_cause] the wrapped error. *)
#[warnings="-register-all"]
Inductive JsError : Type := mkError {
  err_name : string;
  err_message : string;
  err_code : option string;
  err_errno : option Z;
  err_source : option string;
  err_cause : option JsError
}.

(** Modelled from the spec: [./cp-file-error] is not among the sources.  The
    wrapper "stringifies to the supplied message", "exposes the originating
    error's machine-readable code" and "retains a reference to the
    originating error" (section 4.1). *)
Definition CpFileError (msg : string) (nested : option JsError) : JsError :=
  {| err_name := "CpFileError";
     err_message := msg;
     err_code := match nested with Some e => err_code e | None => None end;
     err_errno := None;
     err_source := None;
     err_cause := nested |}.

(** [error.code === c] *)
Definition code_is (error : JsError) (c : string) : bool :=
  match err_code error with
  | Some c' => String.eqb c' c
  | None => false
  end.

(** A path argument as a caller may pass it: absent, [null], or a string. *)
Inductive PathArg : Type :=
| JsUndefined
| JsNull
| JsStr (s : string).

(** JavaScript truthiness, as tested by [!sourcePath]. *)
Definition truthy (v : PathArg) : bool :=
  match v with
  | JsStr s => negb (String.eqb s "")
  | _ => false
  end.

Definition str_of (v : PathArg) : string :=
  match v with
  | JsStr s => s
  | _ => ""
  end.

(** What a settled call hands back: [undefined], or the two-element array of
    [Promise.all]. *)
Inductive JsReturn : Type :=
| RetUndefined
| RetArray2.

(** [fs.constants.COPYFILE_EXCL] of Node. *)
Definition COPYFILE_EXCL : Z := 1.

(** The right single quotation mark (U+2019) of the EISDIR message, in UTF-8. *)
Definition rsquo : string :=
  String "226"%char (String "128"%char (String "153"%char EmptyString)).

(** ** Options *)

(** The options object as supplied by the caller: each key present or not. *)
Record UserOptions : Type := {
  user_overwrite : option bool;
  user_followSymlinks : option bool
}.

Record Options : Type := {
  overwrite : bool;
  followSymlinks : bool
}.

(** [{overwrite: true, followSymlinks: true, ...options}] *)
Definition normalizeOptions (options : option UserOptions) : Options :=
  match options with
  | None => {| overwrite := true; followSymlinks := true |}
  | Some o =>
      {| overwrite := match user_overwrite o with Some b => b | None => true end;
         followSymlinks := match user_followSymlinks o with Some b => b | None => true end |}
  end.

(** ** Stat results and the progress emitter *)

Module Stats.
(** The result of a link-aware stat ([lstat]); times in milliseconds. *)
Record t : Type := {
  isDirectory : bool;
  isSymbolicLink : bool;
  size : Z;
  mode : Z;
  atime : Z;
  mtime : Z
}.
End Stats.

Module ProgressEmitter.
(** Modelled from the spec: [./progress-emitter] is not among the sources.
    Two writable fields, [size] and [writtenBytes]; every assignment is
    recorded as a snapshot (size, writtenBytes) handed to the listeners
    (section 4.2).  The derived [percent] is a floating-point quotient and
    is left out. *)
Record t : Type := {
  sourcePath : string;
  destinationPath : string;
  size : Z;
  writtenBytes : Z;
  emitted : list (Z * Z)
}.

Definition new (src dst : string) : t :=
  {| sourcePath := src; destinationPath := dst;
     size := 0; writtenBytes := 0; emitted := [] |}.

Definition set_size (v : Z) (pe : t) : t :=
  {| sourcePath := sourcePath pe; destinationPath := destinationPath pe;
     size := v; writtenBytes := writtenBytes pe;
     emitted := emitted pe ++ [(v, writtenBytes pe)] |}.

Definition set_writtenBytes (v : Z) (pe : t) : t :=
  {| sourcePath := sourcePath pe; destinationPath := destinationPath pe;
     size := size pe; writtenBytes := v;
     emitted := emitted pe ++ [(size pe, v)] |}.
End ProgressEmitter.

(** ** Completions and the monad *)

(** How an evaluation ends: normally with a value, or by throwing.  For an
    [async] function, [Throw e] is the rejection of the promise it returned. *)
Inductive Completion (A : Type) : Type :=
| Normal (a : A)
| Throw (e : JsError).
Arguments Normal {A} a.
Arguments Throw {A} e.

Definition M (S A : Type) : Type := S -> S * Completion A.

Definition ret {S A} (a : A) : M S A := fun s => (s, Normal a).

Definition throw {S A} (e : JsError) : M S A := fun s => (s, Throw e).

Definition bind {S A B} (m : M S A) (k : A -> M S B) : M S B :=
  fun s =>
    match m s with
    | (s', Normal a) => k a s'
    | (s', Throw e) => (s', Throw e)
    end.

(** [try { m } catch (error) { h error }] *)
Definition try_catch {S A} (m : M S A) (h : JsError -> M S A) : M S A :=
  fun s =>
    match m s with
    | (s', Normal a) => (s', Normal a)
    | (s', Throw e) => h e s'
    end.

(** Starting an operation without awaiting it: the promise it returns is a
    value, whatever its settlement. *)
Definition promise_of {S A} (m : M S A) : M S (Completion A) :=
  fun s => let (s', r) := m s in (s', Normal r).

Declare Scope js_scope.
Delimit Scope js_scope with js.
Notation "x <- m ;; k" := (bind m (fun x => k))
  (at level 100, m at next level, k at level 200, right associativity) : js_scope.
Notation "m ;; k" := (bind m (fun _ => k))
  (at level 100, k at level 200, right associativity) : js_scope.
Local Open Scope js_scope.

(** ** The I/O layer *)

(** What the piped streams deliver to the handlers registered on the read
    stream before the write stream settles. *)
Inductive ReadEvent : Type :=
| EvData (bytesWritten : Z)   (* 'data'; the write stream's counter then *)
| EvError (error : JsError).  (* 'error' *)

(** How the write stream settles for [pEvent(writeStream, 'close')]. *)
Inductive WriteSettle : Type :=
| WClose
| WError (error : JsError).

Record StreamRun : Type := {
  readEvents : list ReadEvent;
  writeSettle : WriteSettle
}.

Record ReadStream : Type := { rs_path : string }.
Record WriteStream : Type := { ws_path : string; ws_flags : string }.

(** The calls made to the I/O layer, as logged. *)
Inductive Call : Type :=
| Call_lstat (path : string)
| Call_copyFileSync (source destination : string) (flags : option Z)
| Call_createReadStream (path : string)
| Call_makeDir (dir : string)
| Call_createWriteStream (path : string) (flags : string)
| Call_pipe (source destination : string)
| Call_writeStream_end (path : string)
| Call_utimes (path : string) (atime mtime : Z)
| Call_chmod (path : string) (mode : Z)
| Call_lstatSync (path : string)
| Call_readlinkSync (path : string)
| Call_makeDirSync (dir : string)
| Call_utimesSync (path : string) (atime mtime : Z).

(** The interface of the modules the program requires and that are not among
    the sources: the [./fs] wrappers, [readlinkSync] of Node's [fs], and
    [dirname] and [resolve] of Node's [path].  Every operation takes the
    filesystem and gives back the filesystem and its completion; nothing is
    assumed about them. *)
Record FsApi (World : Type) : Type := {
  lstat : string -> World -> World * Completion Stats.t;
  copyFileSync : string -> string -> option Z -> World -> World * Completion unit;
  createReadStream : string -> World -> World * Completion ReadStream;
  makeDir : string -> World -> World * Completion unit;
  createWriteStream : string -> string -> World -> World * WriteStream;
  pipe : ReadStream -> WriteStream -> World -> World * StreamRun;
  writeStream_end : WriteStream -> World -> World;
  utimes : string -> Z -> Z -> World -> World * Completion unit;
  chmod : string -> Z -> World -> World * Completion unit;
  (* when both metadata updates reject: does [chmod] reject first? *)
  chmod_rejects_first : World -> bool;
  lstatSync : string -> World -> World * Completion Stats.t;
  readlinkSync : string -> World -> World * Completion string;
  makeDirSync : string -> World -> World * Completion unit;
  utimesSync : string -> Z -> Z -> World -> World * Completion unit;
  dirname : string -> string;
  resolve : string -> string
}.
Arguments lstat {World}.
Arguments copyFileSync {World}.
Arguments createReadStream {World}.
Arguments makeDir {World}.
Arguments createWriteStream {World}.
Arguments pipe {World}.
Arguments writeStream_end {World}.
Arguments utimes {World}.
Arguments chmod {World}.
Arguments chmod_rejects_first {World}.
Arguments lstatSync {World}.
Arguments readlinkSync {World}.
Arguments makeDirSync {World}.
Arguments utimesSync {World}.
Arguments dirname {World}.
Arguments resolve {World}.

(** ** Machine state *)

(** The filesystem and the log of the calls made so far. *)
Record FsState (World : Type) : Type := {
  world : World;
  calls : list Call
}.
Arguments world {World}.
Arguments calls {World}.

(** The asynchronous engine also holds the progress emitter of its call. *)
Record AsyncState (World : Type) : Type := {
  fsState : FsState World;
  emitter : ProgressEmitter.t
}.
Arguments fsState {World}.
Arguments emitter {World}.

(** The promise returned by [cpFile]: its settlement, and the emitter its
    [on] method forwards to ([None] when no [on] method was attached). *)
Record Promise : Type := {
  settlement : Completion JsReturn;
  on_target : option ProgressEmitter.t
}.

Definition initial {World : Type} (w : World) : FsState World :=
  {| world := w; calls := [] |}.

(** [Promise.all([p1, p2])]: fulfilled when both are, otherwise rejected with
    the rejection that came first. *)
Definition Promise_all2 (second_first : bool) (p1 p2 : Completion unit)
  : Completion JsReturn :=
  match p1, p2 with
  | Normal _, Normal _ => Normal RetArray2
  | Throw e, Normal _ => Throw e
  | Normal _, Throw e => Throw e
  | Throw e1, Throw e2 => if second_first then Throw e2 else Throw e1
  end.

Section Engine.
Context {World : Type} (fs : FsApi World).

(** *** Logged calls *)

Definition call {A} (c : Call) (op : World -> World * Completion A)
  : M (FsState World) A :=
  fun s =>
    let (w', r) := op (world s) in
    ({| world := w'; calls := calls s ++ [c] |}, r).

Definition total {A} (op : World -> World * A) : World -> World * Completion A :=
  fun w => let (w', a) := op w in (w', Normal a).

Definition fs_lstat path := call (Call_lstat path) (lstat fs path).
Definition fs_copyFileSync source destination flags :=
  call (Call_copyFileSync source destination flags)
       (copyFileSync fs source destination flags).
Definition fs_createReadStream path :=
  call (Call_createReadStream path) (createReadStream fs path).
Definition fs_makeDir dir := call (Call_makeDir dir) (makeDir fs dir).
Definition fs_createWriteStream path flags :=
  call (Call_createWriteStream path flags) (total (createWriteStream fs path flags)).
Definition stream_pipe (readStream : ReadStream) (writeStream : WriteStream) :=
  call (Call_pipe (rs_path readStream) (ws_path writeStream))
       (total (pipe fs readStream writeStream)).
Definition stream_end (writeStream : WriteStream) :=
  call (Call_writeStream_end (ws_path writeStream))
       (fun w => (writeStream_end fs writeStream w, Normal tt)).
Definition fs_utimes path atime mtime :=
  call (Call_utimes path atime mtime) (utimes fs path atime mtime).
Definition fs_chmod path mode := call (Call_chmod path mode) (chmod fs path mode).
Definition fs_lstatSync path := call (Call_lstatSync path) (lstatSync fs path).
Definition fsReadlinkSync path :=
  call (Call_readlinkSync path) (readlinkSync fs path).
Definition fs_makeDirSync dir := call (Call_makeDirSync dir) (makeDirSync fs dir).
Definition fs_utimesSync path atime mtime :=
  call (Call_utimesSync path atime mtime) (utimesSync fs path atime mtime).

(** *** The asynchronous engine *)

Definition liftFs {A} (m : M (FsState World) A) : M (AsyncState World) A :=
  fun s =>
    let (f', r) := m (fsState s) in
    ({| fsState := f'; emitter := emitter s |}, r).

(** [progressEmitter.size = v] *)
Definition assign_size (v : Z) : M (AsyncState World) unit :=
  fun s =>
    ({| fsState := fsState s;
        emitter := ProgressEmitter.set_size v (emitter s) |},
     Normal tt).

(** [progressEmitter.writtenBytes = v] *)
Definition assign_writtenBytes (v : Z) : M (AsyncState World) unit :=
  fun s =>
    ({| fsState := fsState s;
        emitter := ProgressEmitter.set_writtenBytes v (emitter s) |},
     Normal tt).

(** [progressEmitter.size], read *)
Definition read_size : M (AsyncState World) Z :=
  fun s => (s, Normal (ProgressEmitter.size (emitter s))).

(** [Promise.all] over the two started updates, settled in the filesystem's
    order. *)
Definition await_all2 (p1 p2 : Completion unit) : M (AsyncState World) JsReturn :=
  fun s => (s, Promise_all2 (chmod_rejects_first fs (world (fsState s))) p1 p2).

(** The two handlers registered on the read stream (lines 44-51), run over
    the events the pipe delivers; [readError] is the variable of line 21.
    The 'error' handler is registered with [once]: it runs for the first
    'error' event only. *)
Fixpoint deliver (source : string) (writeStream : WriteStream)
         (events : list ReadEvent) (readError : option JsError)
  : M (AsyncState World) (option JsError) :=
  match events with
  | [] => ret readError
  | EvData bytesWritten :: rest =>
      assign_writtenBytes bytesWritten ;;
      deliver source writeStream rest readError
  | EvError error :: rest =>
      match readError with
      | None =>
          let readError :=
            CpFileError ("Cannot read from `" +:+ source +:+ "`: " +:+ err_message error)
                        (Some error) in
          liftFs (stream_end writeStream) ;;
          deliver source writeStream rest (Some readError)
      | Some _ => deliver source writeStream rest readError
      end
  end.

Definition cpFileAsync (source destination : string) (options : Options)
  : M (AsyncState World) JsReturn :=
  stat <- liftFs (fs_lstat source) ;;
  assign_size (Stats.size stat) ;;
  shouldUpdateStats <-
    (if Stats.isSymbolicLink stat && negb (followSymlinks options) then
       try_catch
         (liftFs (fs_copyFileSync source destination
                    (if overwrite options then None else Some COPYFILE_EXCL)))
         (fun error =>
            if negb (overwrite options) && code_is error "EEXIST" then
              throw (CpFileError ("Cannot write to `" +:+ destination +:+ "`: "
                                    +:+ err_message error) (Some error))
            else ret tt) ;;
       size <- read_size ;;
       assign_writtenBytes size ;;
       ret true
     else
       readStream <- liftFs (fs_createReadStream source) ;;
       liftFs (fs_makeDir (dirname fs destination)) ;;
       writeStream <- liftFs (fs_createWriteStream destination
                                (if overwrite options then "w" else "wx")) ;;
       settled <-
         try_catch
           (run <- liftFs (stream_pipe readStream writeStream) ;;
            readError <- deliver source writeStream (readEvents run) None ;;
            match writeSettle run with
            | WClose =>
                size <- read_size ;;
                assign_writtenBytes size ;;
                ret (readError, true)
            | WError error => throw error
            end)
           (fun error =>
              throw (CpFileError ("Cannot write to `" +:+ destination +:+ "`: "
                                    +:+ err_message error) (Some error))) ;;
       match fst settled with
       | Some readError => throw readError
       | None => ret (snd settled)
       end) ;;
  if shouldUpdateStats : bool then
    stats <- liftFs (fs_lstat source) ;;
    p1 <- promise_of (liftFs (fs_utimes destination (Stats.atime stats) (Stats.mtime stats))) ;;
    p2 <- promise_of (liftFs (fs_chmod destination (Stats.mode stats))) ;;
    await_all2 p1 p2
  else ret RetUndefined.

(** [Promise.reject(e)], returned as it is. *)
Definition Promise_reject (e : JsError) : Promise :=
  {| settlement := Throw e; on_target := None |}.

Definition cpFile (sourcePath destinationPath : PathArg) (options : option UserOptions)
  : M (FsState World) Promise :=
  if negb (truthy sourcePath) || negb (truthy destinationPath) then
    ret (Promise_reject (CpFileError "`source` and `destination` required" None))
  else
    let options := normalizeOptions options in
    let progressEmitter :=
      ProgressEmitter.new (resolve fs (str_of sourcePath))
                          (resolve fs (str_of destinationPath)) in
    fun s =>
      let (s', promise) :=
        cpFileAsync (str_of sourcePath) (str_of destinationPath) options
                    {| fsState := s; emitter := progressEmitter |} in
      (fsState s', Normal {| settlement := promise;
                             on_target := Some (emitter s') |}).

(** *** The synchronous entry point *)

Definition checkSourceIsFile {S} (stat : Stats.t) (source : string) : M S unit :=
  if Stats.isDirectory stat then
    let error :=
      CpFileError ("EISDIR: illegal operation on a directory " +:+ rsquo
                     +:+ source +:+ rsquo) None in
    (* Object.assign(error, {errno: -21, code: 'EISDIR', source}) *)
    throw {| err_name := err_name error;
             err_message := err_message error;
             err_code := Some "EISDIR";
             err_errno := Some (-21);
             err_source := Some source;
             err_cause := err_cause error |}
  else ret tt.

(** The [try] of lines 126-134 either falls through to line 136 or leaves
    the function by the [return] of line 130. *)
Inductive AfterCopy : Type :=
| FallThrough
| Returned.

Definition sync (source destination : PathArg) (options : option UserOptions)
  : M (FsState World) unit :=
  if negb (truthy source) || negb (truthy destination) then
    throw (CpFileError "`source` and `destination` required" None)
  else
    let source := str_of source in
    let destination := str_of destination in
    let options := normalizeOptions options in
    stat <- fs_lstatSync source ;;
    checkSourceIsFile stat source ;;
    source <- (if Stats.isSymbolicLink stat && followSymlinks options
               then fsReadlinkSync source
               else ret source) ;;
    fs_makeDirSync (dirname fs destination) ;;
    let flags := if overwrite options then None else Some COPYFILE_EXCL in
    after <-
      try_catch
        (fs_copyFileSync source destination flags ;; ret FallThrough)
        (fun error =>
           if negb (overwrite options) && code_is error "EEXIST" then ret Returned
           else throw error) ;;
    match after with
    | Returned => ret tt
    | FallThrough =>
        fs_utimesSync destination (Stats.atime stat) (Stats.mtime stat)
    end.
End Engine.

(** ** A reference filesystem

    An in-memory filesystem that implements [FsApi], on which runs can be
    evaluated.  Nothing proved about the program in general depends on it. *)

Module MemFs.

Record Meta : Type := {
  m_mode : Z;
  m_atime : Z;
  m_mtime : Z
}.

Inductive Node : Type :=
| File (content : string) (meta : Meta)
| Link (target : string) (meta : Meta)
| Dir (meta : Meta).

(** Modelled from the spec: the filesystem behind the [./fs] wrappers is not
    among the sources.  A flat table from paths to nodes, a clock, the paths
    that refuse writes ([readonly]) and the files whose reads break off
    ([faulty]).  The copy primitive is the "link-level copy" of section 4.3:
    it copies the node at the source path, link or file, as it is. *)
Record t : Type := {
  nodes : gmap string Node;
  now : Z;
  readonly : list string;
  faulty : list string
}.

Definition sysError (code : string) (errno : Z) (path : string) : JsError :=
  {| err_name := "Error";
     err_message := code +:+ ": " +:+ path;
     err_code := Some code;
     err_errno := Some errno;
     err_source := None;
     err_cause := None |}.

Definition ENOENT := sysError "ENOENT" (-2).
Definition EIO := sysError "EIO" (-5).
Definition EACCES := sysError "EACCES" (-13).
Definition EEXIST := sysError "EEXIST" (-17).
Definition EISDIR := sysError "EISDIR" (-21).
Definition EINVAL := sysError "EINVAL" (-22).

Definition listed (p : string) (l : list string) : bool :=
  existsb (String.eqb p) l.

Definition meta_of (n : Node) : Meta :=
  match n with
  | File _ m => m
  | Link _ m => m
  | Dir m => m
  end.

Definition with_meta (n : Node) (m : Meta) : Node :=
  match n with
  | File c _ => File c m
  | Link l _ => Link l m
  | Dir _ => Dir m
  end.

Definition stats_of (n : Node) : Stats.t :=
  {| Stats.isDirectory := match n with Dir _ => true | _ => false end;
     Stats.isSymbolicLink := match n with Link _ _ => true | _ => false end;
     Stats.size := match n with
                   | File c _ => Z.of_nat (String.length c)
                   | Link l _ => Z.of_nat (String.length l)
                   | Dir _ => 4096
                   end;
     Stats.mode := m_mode (meta_of n);
     Stats.atime := m_atime (meta_of n);
     Stats.mtime := m_mtime (meta_of n) |}.

(** The part of a path before its last separator. *)
Fixpoint parent (s : string) : option string :=
  match s with
  | EmptyString => None
  | String c rest =>
      match parent rest with
      | Some d => Some (String c d)
      | None => if Ascii.eqb c "/" then Some EmptyString else None
      end
  end.

(** [path.dirname], for paths without trailing or repeated separators. *)
Definition dirname (s : string) : string :=
  match parent s with
  | None => "."
  | Some EmptyString => "/"
  | Some d => d
  end.

(** [path.resolve], with the working directory at the root. *)
Definition resolve (s : string) : string :=
  match s with
  | String "/" _ => s
  | _ => "/" +:+ s
  end.

Definition put (p : string) (n : Node) (w : t) : t :=
  {| nodes := <[p := n]> (nodes w); now := now w + 1;
     readonly := readonly w; faulty := faulty w |}.

Definition is_dir (w : t) (p : string) : bool :=
  match nodes w !! p with
  | Some (Dir _) => true
  | _ => false
  end.

Definition fresh_meta (mode : Z) (w : t) : Meta :=
  {| m_mode := mode; m_atime := now w; m_mtime := now w |}.

Definition lstat (p : string) (w : t) : t * Completion Stats.t :=
  match nodes w !! p with
  | Some n => (w, Normal (stats_of n))
  | None => (w, Throw (ENOENT p))
  end.

Definition readlinkSync (p : string) (w : t) : t * Completion string :=
  match nodes w !! p with
  | Some (Link l _) => (w, Normal l)
  | Some _ => (w, Throw (EINVAL p))
  | None => (w, Throw (ENOENT p))
  end.

Definition makeDir (d : string) (w : t) : t * Completion unit :=
  match nodes w !! d with
  | Some (Dir _) => (w, Normal tt)
  | Some _ => (w, Throw (EEXIST d))
  | None =>
      if listed d (readonly w) then (w, Throw (EACCES d))
      else (put d (Dir (fresh_meta 493 w)) w, Normal tt)
  end.

(** Why the destination cannot be written, if it cannot. *)
Definition write_refusal (exclusive : bool) (dst : string) (w : t) : option JsError :=
  if negb (is_dir w (dirname dst)) then Some (ENOENT dst)
  else match nodes w !! dst with
       | Some (Dir _) => Some (EISDIR dst)
       | Some _ =>
           if exclusive then Some (EEXIST dst)
           else if listed dst (readonly w) then Some (EACCES dst) else None
       | None => if listed dst (readonly w) then Some (EACCES dst) else None
       end.

Definition copyFileSync (src dst : string) (flags : option Z) (w : t)
  : t * Completion unit :=
  match nodes w !! src with
  | None => (w, Throw (ENOENT src))
  | Some (Dir _) => (w, Throw (EISDIR src))
  | Some n =>
      let exclusive := match flags with Some f => Z.testbit f 0 | None => false end in
      match write_refusal exclusive dst w with
      | Some e => (w, Throw e)
      | None => (put dst (with_meta n (fresh_meta (m_mode (meta_of n)) w)) w, Normal tt)
      end
  end.

(** The bytes a read stream opened on [p] delivers; a link is followed. *)
Definition readable (p : string) (w : t) : Completion string :=
  match nodes w !! p with
  | None => Throw (ENOENT p)
  | Some (Dir _) => Throw (EISDIR p)
  | Some (File c _) => Normal c
  | Some (Link l _) =>
      match nodes w !! l with
      | Some (File c _) => Normal c
      | Some (Dir _) => Throw (EISDIR p)
      | _ => Throw (ENOENT p)
      end
  end.

Definition createReadStream (p : string) (w : t) : t * Completion ReadStream :=
  match readable p w with
  | Normal _ => (w, Normal {| rs_path := p |})
  | Throw e => (w, Throw e)
  end.

Definition createWriteStream (p flags : string) (w : t) : t * WriteStream :=
  (w, {| ws_path := p; ws_flags := flags |}).

(** What the read side delivers: a file is read in one chunk, announced
    while nothing is written yet; the read of a faulty file breaks off after
    the announcement; a source that cannot be read fails at once. *)
Definition read_side (p : string) (w : t) : list ReadEvent * string :=
  match readable p w with
  | Throw e => ([EvError e], "")
  | Normal c =>
      if listed p (faulty w) then ([EvData 0; EvError (EIO p)], "")
      else (match c with EmptyString => [] | _ => [EvData 0] end, c)
  end.

(** The destination is opened when the pipe starts; the two sides fail
    independently of each other. *)
Definition pipe (rs : ReadStream) (ws : WriteStream) (w : t) : t * StreamRun :=
  let (events, written) := read_side (rs_path rs) w in
  match write_refusal (String.eqb (ws_flags ws) "wx") (ws_path ws) w with
  | Some e => (w, {| readEvents := events; writeSettle := WError e |})
  | None =>
      (put (ws_path ws) (File written (fresh_meta 420 w)) w,
       {| readEvents := events; writeSettle := WClose |})
  end.

Definition utimes (p : string) (atime mtime : Z) (w : t) : t * Completion unit :=
  match nodes w !! p with
  | None => (w, Throw (ENOENT p))
  | Some n =>
      if listed p (readonly w) then (w, Throw (EACCES p))
      else (put p (with_meta n {| m_mode := m_mode (meta_of n);
                                  m_atime := atime; m_mtime := mtime |}) w,
            Normal tt)
  end.

Definition chmod (p : string) (mode : Z) (w : t) : t * Completion unit :=
  match nodes w !! p with
  | None => (w, Throw (ENOENT p))
  | Some n =>
      if listed p (readonly w) then (w, Throw (EACCES p))
      else (put p (with_meta n {| m_mode := mode;
                                  m_atime := m_atime (meta_of n);
                                  m_mtime := m_mtime (meta_of n) |}) w,
            Normal tt)
  end.

End MemFs.

Definition memFs : FsApi MemFs.t :=
  {| lstat := MemFs.lstat;
     copyFileSync := MemFs.copyFileSync;
     createReadStream := MemFs.createReadStream;
     makeDir := MemFs.makeDir;
     createWriteStream := MemFs.createWriteStream;
     pipe := MemFs.pipe;
     writeStream_end := fun _ w => w;
     utimes := MemFs.utimes;
     chmod := MemFs.chmod;
     chmod_rejects_first := fun _ => false;
     lstatSync := MemFs.lstat;
     readlinkSync := MemFs.readlinkSync;
     makeDirSync := MemFs.makeDir;
     utimesSync := MemFs.utimes;
     dirname := MemFs.dirname;
     resolve := MemFs.resolve |}.

(** An example filesystem: a file, a link to it, a dangling link, a
    directory holding an older file and a write-protected one, and a file
    whose reads break off. *)
Definition example_meta (mode atime mtime : Z) : MemFs.Meta :=
  {| MemFs.m_mode := mode; MemFs.m_atime := atime; MemFs.m_mtime := mtime |}.

Definition example_disk : MemFs.t :=
  {| MemFs.nodes :=
       <["/" := MemFs.Dir (example_meta 493 1 1)]>
       (<["/a.txt" := MemFs.File "hello" (example_meta 420 10 20)]>
       (<["/ln" := MemFs.Link "/a.txt" (example_meta 511 30 40)]>
       (<["/dangling" := MemFs.Link "/nowhere" (example_meta 511 31 41)]>
       (<["/bad.bin" := MemFs.File "data" (example_meta 420 11 21)]>
       (<["/d" := MemFs.Dir (example_meta 493 5 5)]>
       (<["/d/old.txt" := MemFs.File "old" (example_meta 384 50 60)]>
       (<["/d/locked.txt" := MemFs.File "kept" (example_meta 292 51 61)]> ∅)))))));
     MemFs.now := 100;
     MemFs.readonly := ["/d/locked.txt"];
     MemFs.faulty := ["/bad.bin"] |}.

Definition no_overwrite : option UserOptions :=
  Some {| user_overwrite := Some false; user_followSymlinks := None |}.

Definition keep_links : option UserOptions :=
  Some {| user_overwrite := None; user_followSymlinks := Some false |}.

Definition example_emitter (src dst : string) : ProgressEmitter.t :=
  ProgressEmitter.new (MemFs.resolve src) (MemFs.resolve dst).

Definition example_async (src dst : string) : AsyncState MemFs.t :=
  {| fsState := initial example_disk; emitter := example_emitter src dst |}.

(** ** Vocabulary of the statements *)

(** A path argument that is "missing or empty". *)
Definition missing_or_empty (v : PathArg) : Prop :=
  v = JsUndefined \/ v = JsNull \/ v = JsStr "".

(** The wrapped failures of section 7, as lines 49 and 32/60 build them. *)
Definition read_failure (source : string) (error : JsError) : JsError :=
  CpFileError ("Cannot read from `" +:+ source +:+ "`: " +:+ err_message error)
              (Some error).

Definition write_failure (destination : string) (error : JsError) : JsError :=
  CpFileError ("Cannot write to `" +:+ destination +:+ "`: " +:+ err_message error)
              (Some error).

(** The first 'error' event among those delivered, if any. *)
Fixpoint first_read_error (events : list ReadEvent) : option JsError :=
  match events with
  | [] => None
  | EvData _ :: rest => first_read_error rest
  | EvError error :: _ => Some error
  end.

(** The progress emitter after the 'data' events among those delivered. *)
Fixpoint progress_after (events : list ReadEvent) (pe : ProgressEmitter.t)
  : ProgressEmitter.t :=
  match events with
  | [] => pe
  | EvData bytesWritten :: rest =>
      progress_after rest (ProgressEmitter.set_writtenBytes bytesWritten pe)
  | EvError _ :: rest => progress_after rest pe
  end.

(** The source path as [sync] copies from it after line 121. *)
Definition resolved_source {World : Type} (fs : FsApi World)
    (stat : Stats.t) (options : Options) (source : string) (w : World)
  : World * Completion string :=
  if Stats.isSymbolicLink stat && followSymlinks options
  then readlinkSync fs source w
  else (w, Normal source).

(** A program of the asynchronous engine only appends calls that satisfy [P]
    to the log. *)
Definition appends {World A : Type} (P : Call -> Prop)
    (m : M (AsyncState World) A) : Prop :=
  forall s, exists new,
    calls (fsState (fst (m s))) = calls (fsState s) ++ new /\ Forall P new.

Definition is_readlink (c : Call) : bool :=
  match c with
  | Call_readlinkSync _ => true
  | _ => false
  end.

(** Which call [sync] may make on given arguments: a synchronous call, reads
    on the source, writes on the destination. *)
Definition sync_target {World : Type} (fs : FsApi World)
    (source destination : string) (options : Options) (c : Call) : Prop :=
  match c with
  | Call_lstatSync path => path = source
  | Call_readlinkSync path => path = source
  | Call_makeDirSync dir => dir = dirname fs destination
  | Call_copyFileSync _ dst flags =>
      dst = destination
      /\ flags = (if overwrite options then None else Some COPYFILE_EXCL)
  | Call_utimesSync path _ _ => path = destination
  | _ => False
  end.

(** Which call the asynchronous engine may make on given arguments. *)
Definition async_target {World : Type} (fs : FsApi World)
    (source destination : string) (options : Options) (c : Call) : Prop :=
  match c with
  | Call_lstat path => path = source
  | Call_copyFileSync src dst flags =>
      src = source /\ dst = destination
      /\ flags = (if overwrite options then None else Some COPYFILE_EXCL)
  | Call_createReadStream path => path = source
  | Call_makeDir dir => dir = dirname fs destination
  | Call_createWriteStream path flags =>
      path = destination /\ flags = (if overwrite options then "w" else "wx")
  | Call_pipe _ _ => True
  | Call_writeStream_end _ => True
  | Call_utimes path _ _ => path = destination
  | Call_chmod path _ => path = destination
  | _ => False
  end.

Definition is_link_copy (c : Call) : bool :=
  match c with
  | Call_copyFileSync _ _ _ => true
  | _ => false
  end.

Definition is_stream_call (c : Call) : bool :=
  match c with
  | Call_createReadStream _ | Call_makeDir _ | Call_createWriteStream _ _
  | Call_pipe _ _ | Call_writeStream_end _ => true
  | _ => false
  end.

Definition is_write_end (c : Call) : bool :=
  match c with
  | Call_writeStream_end _ => true
  | _ => false
  end.

(** The write stream's counters that the 'data' events carried, in order. *)
Fixpoint data_values (events : list ReadEvent) : list Z :=
  match events with
  | [] => []
  | EvData bytesWritten :: rest => bytesWritten :: data_values rest
  | EvError _ :: rest => data_values rest
  end.

(** The reference filesystem with a second process that unlinks the source
    while the streams run. *)
Definition unlinked (p : string) (w : MemFs.t) : MemFs.t :=
  {| MemFs.nodes := delete p (MemFs.nodes w); MemFs.now := MemFs.now w;
     MemFs.readonly := MemFs.readonly w; MemFs.faulty := MemFs.faulty w |}.

Definition racyFs : FsApi MemFs.t :=
  {| lstat := MemFs.lstat;
     copyFileSync := MemFs.copyFileSync;
     createReadStream := MemFs.createReadStream;
     makeDir := MemFs.makeDir;
     createWriteStream := MemFs.createWriteStream;
     pipe := fun rs ws w =>
               let (w', run) := MemFs.pipe rs ws w in (unlinked (rs_path rs) w', run);
     writeStream_end := fun _ w => w;
     utimes := MemFs.utimes;
     chmod := MemFs.chmod;
     chmod_rejects_first := fun _ => false;
     lstatSync := MemFs.lstat;
     readlinkSync := MemFs.readlinkSync;
     makeDirSync := MemFs.makeDir;
     utimesSync := MemFs.utimes;
     dirname := MemFs.dirname;
     resolve := MemFs.resolve |}.

(** * Properties *)

Lemma missing_or_empty_falsy (v : PathArg) :
  missing_or_empty v -> truthy v = false.
Proof. intros [-> | [-> | ->]]; reflexivity. Qed.

Lemma truthy_JsStr (s : string) : s <> "" -> truthy (JsStr s) = true.
Proof.
  intros Hs. simpl. destruct (String.eqb_spec s ""); [contradiction | reflexivity].
Qed.

(** Unfolding the logged calls and the monad down to state passing. *)
Ltac unfold_ops :=
  unfold fs_lstat, fs_copyFileSync, fs_createReadStream, fs_makeDir,
    fs_createWriteStream, stream_pipe, stream_end, fs_utimes, fs_chmod,
    fs_lstatSync, fsReadlinkSync, fs_makeDirSync, fs_utimesSync,
    assign_size, assign_writtenBytes, read_size, await_all2,
    liftFs, call, total, promise_of, try_catch, bind, ret, throw.

(** Running a program along the answers of the I/O layer that the
    hypotheses give. *)
Ltac run_with_answers :=
  repeat (cbn;
          match goal with
          | H : ?op = (_, _) |- context [?op] => rewrite H
          | H : ?b = true |- context [?b] => rewrite H
          | H : ?b = false |- context [?b] => rewrite H
          end);
  cbn.

(** Case analysis on the answers of the I/O layer still to come. *)
Ltac explore_answers :=
  repeat (cbn;
          match goal with
          | |- context [lstat ?f ?p ?w] => destruct (lstat f p w) as [? [? | ?]]
          | |- context [copyFileSync ?f ?p ?q ?x ?w] =>
              destruct (copyFileSync f p q x w) as [? [[] | ?]]
          | |- context [createReadStream ?f ?p ?w] =>
              destruct (createReadStream f p w) as [? [? | ?]]
          | |- context [makeDir ?f ?p ?w] => destruct (makeDir f p w) as [? [[] | ?]]
          | |- context [createWriteStream ?f ?p ?x ?w] =>
              destruct (createWriteStream f p x w) as [? ?]
          | |- context [pipe ?f ?r ?x ?w] => destruct (pipe f r x w) as [? ?]
          | |- context [utimes ?f ?p ?a ?m ?w] =>
              destruct (utimes f p a m w) as [? [[] | ?]]
          | |- context [chmod ?f ?p ?m ?w] => destruct (chmod f p m w) as [? [[] | ?]]
          end);
  cbn.

Section Properties.
Context {World : Type} (fs : FsApi World).

(** C7.  A call whose source or destination path is missing or empty signals
    a configuration error without touching the filesystem (the world and the
    call log are as before): [sync] throws it, whereas [cpFile] completes
    normally and returns a promise that is rejected with it. *)
Theorem missing_path_configuration_error
    (source destination : PathArg) (options : option UserOptions)
    (s : FsState World) :
  missing_or_empty source \/ missing_or_empty destination ->
  sync fs source destination options s
    = (s, Throw (CpFileError "`source` and `destination` required" None))
  /\ cpFile fs source destination options s
    = (s, Normal {| settlement :=
                      Throw (CpFileError "`source` and `destination` required" None);
                    on_target := None |}).
Proof.
  intros H.
  assert (Hc : negb (truthy source) || negb (truthy destination) = true).
  { destruct H as [H | H]; apply missing_or_empty_falsy in H; rewrite H;
      [reflexivity | apply orb_true_r]. }
  unfold sync, cpFile. rewrite Hc. split; reflexivity.
Qed.

(** C5.  When the source of a [sync] call stats as a directory, the call
    throws an error with code "EISDIR" and errno -21 that names the source,
    and it does so right after the stat: the only call made is that
    [lstatSync], so no directory is created and no destination is written. *)
Theorem sync_directory_source_rejected
    (source destination : string) (options : option UserOptions)
    (s : FsState World) (w1 : World) (stat : Stats.t) :
  source <> "" -> destination <> "" ->
  lstatSync fs source (world s) = (w1, Normal stat) ->
  Stats.isDirectory stat = true ->
  exists error,
    sync fs (JsStr source) (JsStr destination) options s
      = ({| world := w1; calls := calls s ++ [Call_lstatSync source] |}, Throw error)
    /\ err_code error = Some "EISDIR"
    /\ err_errno error = Some (-21)
    /\ err_source error = Some source
    /\ err_message error
       = "EISDIR: illegal operation on a directory " +:+ rsquo +:+ source +:+ rsquo.
Proof.
  intros Hs Hd Hstat Hdir.
  eexists. split.
  - unfold sync. rewrite (truthy_JsStr _ Hs), (truthy_JsStr _ Hd).
    unfold checkSourceIsFile. unfold_ops. run_with_answers. reflexivity.
  - repeat split.
Qed.

(** *** The handlers of the read stream *)

Lemma progress_after_size (events : list ReadEvent) (pe : ProgressEmitter.t) :
  ProgressEmitter.size (progress_after events pe) = ProgressEmitter.size pe.
Proof.
  revert pe. induction events as [| [n | e] rest IH]; intros pe; simpl;
    [reflexivity | rewrite IH; reflexivity | apply IH].
Qed.

(** Once a read failure is recorded, further events only move the progress. *)
Lemma deliver_recorded (source : string) (ws : WriteStream)
    (events : list ReadEvent) (recorded : JsError) (s : AsyncState World) :
  deliver fs source ws events (Some recorded) s
  = ({| fsState := fsState s; emitter := progress_after events (emitter s) |},
     Normal (Some recorded)).
Proof.
  revert s. induction events as [| [n | e] rest IH]; intros s; simpl.
  - destruct s; reflexivity.
  - unfold bind, assign_writtenBytes. rewrite IH. reflexivity.
  - apply IH.
Qed.

(** The handlers never throw.  Without an 'error' event nothing is recorded;
    at the first one the wrapped read failure is recorded and the write
    stream is ended. *)
Lemma deliver_run (source : string) (ws : WriteStream)
    (events : list ReadEvent) (s : AsyncState World) :
  deliver fs source ws events None s
  = match first_read_error events with
    | None =>
        ({| fsState := fsState s; emitter := progress_after events (emitter s) |},
         Normal None)
    | Some error =>
        ({| fsState :=
              {| world := writeStream_end fs ws (world (fsState s));
                 calls := calls (fsState s) ++ [Call_writeStream_end (ws_path ws)] |};
            emitter := progress_after events (emitter s) |},
         Normal (Some (read_failure source error)))
    end.
Proof.
  revert s. induction events as [| [n | e] rest IH]; intros s; simpl.
  - destruct s; reflexivity.
  - unfold bind, assign_writtenBytes. rewrite IH.
    destruct (first_read_error rest); reflexivity.
  - unfold bind, liftFs, stream_end, call. cbn.
    rewrite deliver_recorded. reflexivity.
Qed.

(** *** The streaming branch *)

Lemma write_failure_is_not_read_failure
    (source destination : string) (readError writeError : JsError) :
  write_failure destination writeError <> read_failure source readError.
Proof. unfold write_failure, read_failure, CpFileError. cbn. discriminate. Qed.

(** C3.  In the streaming branch, a read-side failure is recorded and the
    write stream is ended (the last call of the run), and nothing is raised
    before the write stream has settled.  If the write stream settles with an
    error, the wrapped destination-write failure is what the operation
    rejects with; the recorded read failure is raised exactly when the write
    stream closed without error.  No metadata call follows in either case. *)
Theorem streaming_read_failure_deferred
    (source destination : string) (options : Options) (s : AsyncState World)
    (w1 w2 w3 w4 w5 : World) (stat : Stats.t)
    (rs : ReadStream) (ws : WriteStream) (run : StreamRun) (readError : JsError) :
  lstat fs source (world (fsState s)) = (w1, Normal stat) ->
  Stats.isSymbolicLink stat && negb (followSymlinks options) = false ->
  createReadStream fs source w1 = (w2, Normal rs) ->
  makeDir fs (dirname fs destination) w2 = (w3, Normal tt) ->
  createWriteStream fs destination (if overwrite options then "w" else "wx") w3
    = (w4, ws) ->
  pipe fs rs ws w4 = (w5, run) ->
  first_read_error (readEvents run) = Some readError ->
  let result := cpFileAsync fs source destination options s in
  calls (fsState (fst result))
    = calls (fsState s)
        ++ [Call_lstat source;
            Call_createReadStream source;
            Call_makeDir (dirname fs destination);
            Call_createWriteStream destination (if overwrite options then "w" else "wx");
            Call_pipe (rs_path rs) (ws_path ws);
            Call_writeStream_end (ws_path ws)]
  /\ snd result
     = match writeSettle run with
       | WError writeError => Throw (write_failure destination writeError)
       | WClose => Throw (read_failure source readError)
       end
  /\ (snd result = Throw (read_failure source readError) -> writeSettle run = WClose).
Proof.
  intros Hstat Hbranch Hread Hdir Hwrite Hpipe Hfirst result.
  assert (Hrun : result
    = ({| fsState :=
            {| world := writeStream_end fs ws w5;
               calls := calls (fsState s)
                 ++ [Call_lstat source;
                     Call_createReadStream source;
                     Call_makeDir (dirname fs destination);
                     Call_createWriteStream destination
                       (if overwrite options then "w" else "wx");
                     Call_pipe (rs_path rs) (ws_path ws);
                     Call_writeStream_end (ws_path ws)] |};
          emitter :=
            match writeSettle run with
            | WError _ =>
                progress_after (readEvents run)
                  (ProgressEmitter.set_size (Stats.size stat) (emitter s))
            | WClose =>
                ProgressEmitter.set_writtenBytes (Stats.size stat)
                  (progress_after (readEvents run)
                     (ProgressEmitter.set_size (Stats.size stat) (emitter s)))
            end |},
       match writeSettle run with
       | WError writeError => Throw (write_failure destination writeError)
       | WClose => Throw (read_failure source readError)
       end)).
  { subst result. unfold cpFileAsync. unfold_ops. run_with_answers.
    rewrite deliver_run, Hfirst. cbn.
    repeat rewrite <- app_assoc. cbn [app].
    destruct (writeSettle run) as [| writeError]; cbn;
      [rewrite progress_after_size |]; reflexivity. }
  rewrite Hrun. cbn [fst snd fsState calls]. split; [reflexivity |].
  split; [reflexivity |].
  destruct (writeSettle run) as [| writeError]; [reflexivity |].
  intros Heq. exfalso.
  apply (write_failure_is_not_read_failure source destination readError writeError).
  congruence.
Qed.

(** C8.  In the streaming branch the read stream is opened, and awaited,
    before anything is done on the destination side.  When the source cannot
    be opened, the operation rejects with that failure after two calls, the
    stat and the failed open: the filesystem is left as the failed open left
    it, no directory is created and no write stream is opened.  When it can
    be opened, creating the destination's directory is the very next call. *)
Theorem streaming_opens_source_first
    (source destination : string) (options : Options) (s : AsyncState World)
    (w1 : World) (stat : Stats.t) :
  lstat fs source (world (fsState s)) = (w1, Normal stat) ->
  Stats.isSymbolicLink stat && negb (followSymlinks options) = false ->
  let result := cpFileAsync fs source destination options s in
  match createReadStream fs source w1 with
  | (w2, Throw error) =>
      snd result = Throw error
      /\ fsState (fst result)
         = {| world := w2;
              calls := calls (fsState s)
                         ++ [Call_lstat source; Call_createReadStream source] |}
  | (w2, Normal _) =>
      exists rest,
        calls (fsState (fst result))
        = calls (fsState s)
            ++ [Call_lstat source; Call_createReadStream source;
                Call_makeDir (dirname fs destination)] ++ rest
  end.
Proof.
  intros Hstat Hbranch result.
  destruct (createReadStream fs source w1) as [w2 [rs | error]] eqn:Hread.
  - subst result. unfold cpFileAsync. unfold_ops. run_with_answers.
    destruct (makeDir fs (dirname fs destination) w2) as [w3 [[] | error]] eqn:Hdir;
      cbn.
    + destruct (createWriteStream fs destination _ w3) as [w4 ws] eqn:Hwrite; cbn.
      destruct (pipe fs rs ws w4) as [w5 run] eqn:Hpipe; cbn.
      rewrite deliver_run.
      destruct (first_read_error (readEvents run)) as [readError |];
        destruct (writeSettle run) as [| writeError]; cbn;
        explore_answers;
        repeat rewrite <- app_assoc; cbn [app];
        eexists; reflexivity.
    + exists []. repeat rewrite <- app_assoc. reflexivity.
  - subst result. unfold cpFileAsync. unfold_ops. run_with_answers.
    repeat rewrite <- app_assoc. split; reflexivity.
Qed.

(** C2.  Copying with [overwrite: false] onto a destination that already
    exists.  [sync] asks for an exclusive copy, the copy fails with code
    "EEXIST", and the call returns normally.  The streaming branch of the
    asynchronous engine opens the write stream with flags "wx"; the write
    stream fails with code "EEXIST", and the operation rejects with the
    wrapped destination-write failure, a [CpFileError] that names the
    destination and carries that code. *)
Theorem exclusive_copy_onto_existing_destination
    (source destination : string) (user : option UserOptions)
    (* the synchronous run *)
    (s : FsState World) (w1 w2 w3 w4 : World) (stat : Stats.t)
    (source' : string) (copyError : JsError)
    (* the asynchronous run *)
    (a : AsyncState World) (v1 v2 v3 v4 v5 : World) (stat' : Stats.t)
    (rs : ReadStream) (ws : WriteStream) (run : StreamRun) (writeError : JsError) :
  source <> "" -> destination <> "" ->
  overwrite (normalizeOptions user) = false ->
  lstatSync fs source (world s) = (w1, Normal stat) ->
  Stats.isDirectory stat = false ->
  resolved_source fs stat (normalizeOptions user) source w1 = (w2, Normal source') ->
  makeDirSync fs (dirname fs destination) w2 = (w3, Normal tt) ->
  copyFileSync fs source' destination (Some COPYFILE_EXCL) w3 = (w4, Throw copyError) ->
  err_code copyError = Some "EEXIST" ->
  lstat fs source (world (fsState a)) = (v1, Normal stat') ->
  Stats.isSymbolicLink stat' && negb (followSymlinks (normalizeOptions user)) = false ->
  createReadStream fs source v1 = (v2, Normal rs) ->
  makeDir fs (dirname fs destination) v2 = (v3, Normal tt) ->
  createWriteStream fs destination "wx" v3 = (v4, ws) ->
  pipe fs rs ws v4 = (v5, run) ->
  writeSettle run = WError writeError ->
  err_code writeError = Some "EEXIST" ->
  snd (sync fs (JsStr source) (JsStr destination) user s) = Normal tt
  /\ (let result := cpFileAsync fs source destination (normalizeOptions user) a in
      In (Call_createWriteStream destination "wx") (calls (fsState (fst result)))
      /\ snd result = Throw (write_failure destination writeError)
      /\ err_name (write_failure destination writeError) = "CpFileError"
      /\ err_code (write_failure destination writeError) = Some "EEXIST"
      /\ err_message (write_failure destination writeError)
         = "Cannot write to `" +:+ destination +:+ "`: " +:+ err_message writeError).
Proof.
  intros Hs Hd Hover Hstat Hdir Hsrc Hmk Hcopy Hcode
         Hstat' Hbranch Hread Hmk' Hwrite Hpipe Hsettle Hcode'.
  split.
  - unfold sync. rewrite (truthy_JsStr _ Hs), (truthy_JsStr _ Hd).
    unfold checkSourceIsFile, resolved_source in *.
    unfold_ops. cbn [str_of negb orb].
    rewrite Hstat. cbn. rewrite Hdir, Hover in *.
    destruct (Stats.isSymbolicLink stat && followSymlinks (normalizeOptions user));
      cbn; [rewrite Hsrc | injection Hsrc as <- <-]; cbn;
      rewrite Hmk; cbn; rewrite Hcopy; cbn;
      unfold code_is; rewrite Hcode; reflexivity.
  - cbn zeta. unfold cpFileAsync. rewrite Hover. unfold_ops. run_with_answers.
    rewrite deliver_run.
    destruct (first_read_error (readEvents run)) as [readError |]; cbn;
      rewrite Hsettle; cbn.
    + split; [| repeat split; assumption].
      rewrite !in_app_iff. cbn. tauto.
    + split; [| repeat split; assumption].
      rewrite !in_app_iff. cbn. tauto.
Qed.

(** *** The synchronous path *)

(** C9.  In the silent-success case of [sync] (the exclusive copy is refused
    with code "EEXIST" while [overwrite] is false) the call returns normally
    right after the refused copy: no [utimesSync] call is made, and the
    filesystem is left as the refused copy left it.  Hence whatever is
    observed of the destination (its content, timestamps and mode) and is
    left alone by the stat, the link resolution, the directory creation and
    the refused copy is the same after the call as before. *)
Theorem sync_silent_success_leaves_destination
    {A : Type} (observe : World -> A)
    (source destination : string) (user : option UserOptions)
    (s : FsState World) (w1 w2 w3 w4 : World) (stat : Stats.t)
    (source' : string) (copyError : JsError) :
  source <> "" -> destination <> "" ->
  overwrite (normalizeOptions user) = false ->
  lstatSync fs source (world s) = (w1, Normal stat) ->
  Stats.isDirectory stat = false ->
  resolved_source fs stat (normalizeOptions user) source w1 = (w2, Normal source') ->
  makeDirSync fs (dirname fs destination) w2 = (w3, Normal tt) ->
  copyFileSync fs source' destination (Some COPYFILE_EXCL) w3 = (w4, Throw copyError) ->
  err_code copyError = Some "EEXIST" ->
  observe w1 = observe (world s) ->
  observe w2 = observe w1 ->
  observe w3 = observe w2 ->
  observe w4 = observe w3 ->
  let result := sync fs (JsStr source) (JsStr destination) user s in
  snd result = Normal tt
  /\ calls (fst result)
     = calls s
         ++ Call_lstatSync source
         :: (if Stats.isSymbolicLink stat && followSymlinks (normalizeOptions user)
             then [Call_readlinkSync source] else [])
         ++ [Call_makeDirSync (dirname fs destination);
             Call_copyFileSync source' destination (Some COPYFILE_EXCL)]
  /\ world (fst result) = w4
  /\ observe (world (fst result)) = observe (world s).
Proof.
  intros Hs Hd Hover Hstat Hdir Hsrc Hmk Hcopy Hcode Ho1 Ho2 Ho3 Ho4 result.
  assert (Hrun : result
    = ({| world := w4;
          calls := calls s
            ++ Call_lstatSync source
            :: (if Stats.isSymbolicLink stat && followSymlinks (normalizeOptions user)
                then [Call_readlinkSync source] else [])
            ++ [Call_makeDirSync (dirname fs destination);
                Call_copyFileSync source' destination (Some COPYFILE_EXCL)] |},
       Normal tt)).
  { subst result. unfold sync.
    rewrite (truthy_JsStr _ Hs), (truthy_JsStr _ Hd).
    unfold checkSourceIsFile, resolved_source in *.
    unfold_ops. cbn [str_of negb orb].
    rewrite Hstat. cbn. rewrite Hdir, Hover in *.
    destruct (Stats.isSymbolicLink stat && followSymlinks (normalizeOptions user));
      cbn; [rewrite Hsrc | injection Hsrc as <- <-]; cbn;
      rewrite Hmk; cbn; rewrite Hcopy; cbn;
      unfold code_is; rewrite Hcode; cbn;
      repeat rewrite <- app_assoc; reflexivity. }
  rewrite Hrun. cbn [fst snd world calls].
  repeat split. congruence.
Qed.

(** C10.  When [sync] copies a symbolic link with [followSymlinks] true, the
    only stat of the run is the link-aware stat of the source path as given,
    made before the path is replaced by the link's target; the atime and
    mtime handed to [utimesSync] for the destination are those of that stat,
    that is, the link's own.  The target is never stat'ed. *)
Theorem sync_followed_link_keeps_link_times
    (source destination : string) (user : option UserOptions)
    (s : FsState World) (w1 w2 w3 w4 w5 : World) (stat : Stats.t)
    (target : string) (updated : Completion unit) :
  source <> "" -> destination <> "" ->
  followSymlinks (normalizeOptions user) = true ->
  lstatSync fs source (world s) = (w1, Normal stat) ->
  Stats.isDirectory stat = false ->
  Stats.isSymbolicLink stat = true ->
  readlinkSync fs source w1 = (w2, Normal target) ->
  makeDirSync fs (dirname fs destination) w2 = (w3, Normal tt) ->
  copyFileSync fs target destination
    (if overwrite (normalizeOptions user) then None else Some COPYFILE_EXCL) w3
    = (w4, Normal tt) ->
  utimesSync fs destination (Stats.atime stat) (Stats.mtime stat) w4 = (w5, updated) ->
  sync fs (JsStr source) (JsStr destination) user s
  = ({| world := w5;
        calls := calls s
          ++ [Call_lstatSync source;
              Call_readlinkSync source;
              Call_makeDirSync (dirname fs destination);
              Call_copyFileSync target destination
                (if overwrite (normalizeOptions user) then None else Some COPYFILE_EXCL);
              Call_utimesSync destination (Stats.atime stat) (Stats.mtime stat)] |},
     updated).
Proof.
  intros Hs Hd Hfollow Hstat Hdir Hlink Htarget Hmk Hcopy Htimes.
  unfold sync. rewrite (truthy_JsStr _ Hs), (truthy_JsStr _ Hd).
  unfold checkSourceIsFile. unfold_ops. run_with_answers.
  repeat rewrite <- app_assoc. reflexivity.
Qed.

(** *** What the asynchronous engine may call *)

Section Appends.
Variable P : Call -> Prop.

Lemma appends_ret {A} (a : A) : appends P (ret (S := AsyncState World) a).
Proof. intros s. exists []. rewrite app_nil_r. split; [reflexivity | constructor]. Qed.

Lemma appends_throw {A} (e : JsError) :
  appends P (throw (S := AsyncState World) (A := A) e).
Proof. intros s. exists []. rewrite app_nil_r. split; [reflexivity | constructor]. Qed.

Lemma appends_bind {A B} (m : M (AsyncState World) A) (k : A -> M (AsyncState World) B) :
  appends P m -> (forall a, appends P (k a)) -> appends P (bind m k).
Proof.
  intros Hm Hk s. unfold bind.
  destruct (Hm s) as (new1 & E1 & F1).
  destruct (m s) as [s1 [a | e]]; cbn in *.
  - destruct (Hk a s1) as (new2 & E2 & F2).
    exists (new1 ++ new2). rewrite E2, E1, app_assoc.
    split; [reflexivity | apply Forall_app; split; assumption].
  - exists new1. split; assumption.
Qed.

Lemma appends_try_catch {A} (m : M (AsyncState World) A)
    (h : JsError -> M (AsyncState World) A) :
  appends P m -> (forall e, appends P (h e)) -> appends P (try_catch m h).
Proof.
  intros Hm Hh s. unfold try_catch.
  destruct (Hm s) as (new1 & E1 & F1).
  destruct (m s) as [s1 [a | e]]; cbn in *.
  - exists new1. split; assumption.
  - destruct (Hh e s1) as (new2 & E2 & F2).
    exists (new1 ++ new2). rewrite E2, E1, app_assoc.
    split; [reflexivity | apply Forall_app; split; assumption].
Qed.

Lemma appends_promise_of {A} (m : M (AsyncState World) A) :
  appends P m -> appends P (promise_of m).
Proof.
  intros Hm s. unfold promise_of.
  destruct (Hm s) as (new & E & F). destruct (m s) as [s1 r]. exists new.
  split; assumption.
Qed.

Lemma appends_call {A} (c : Call) (op : World -> World * Completion A) :
  P c -> appends P (liftFs (call c op)).
Proof.
  intros Hc s. unfold liftFs, call.
  destruct (op (world (fsState s))) as [w r]. exists [c].
  split; [reflexivity | constructor; [assumption | constructor]].
Qed.

Lemma appends_silent {A} (m : M (AsyncState World) A) :
  (forall s, fsState (fst (m s)) = fsState s) -> appends P m.
Proof.
  intros Hm s. exists []. rewrite Hm, app_nil_r. split; [reflexivity | constructor].
Qed.

Lemma appends_deliver (source : string) (ws : WriteStream)
    (events : list ReadEvent) (readError : option JsError) :
  P (Call_writeStream_end (ws_path ws)) ->
  appends P (deliver fs source ws events readError).
Proof.
  intros Hend. revert readError.
  induction events as [| [n | e] rest IH]; intros readError; simpl.
  - apply appends_ret.
  - apply appends_bind; [apply appends_silent; reflexivity | intros _; apply IH].
  - destruct readError as [recorded |]; [apply IH |].
    apply appends_bind; [apply appends_call; assumption | intros _; apply IH].
Qed.

(** The calls of one run of the engine: the asynchronous wrappers, the
    synchronous [copyFileSync] of the link branch, and the stream calls. *)
Lemma cpFileAsync_appends (source destination : string) (options : Options) :
  (forall path, P (Call_lstat path)) ->
  (forall src dst flags, P (Call_copyFileSync src dst flags)) ->
  (forall path, P (Call_createReadStream path)) ->
  (forall dir, P (Call_makeDir dir)) ->
  (forall path flags, P (Call_createWriteStream path flags)) ->
  (forall src dst, P (Call_pipe src dst)) ->
  (forall path, P (Call_writeStream_end path)) ->
  (forall path atime mtime, P (Call_utimes path atime mtime)) ->
  (forall path mode, P (Call_chmod path mode)) ->
  appends P (cpFileAsync fs source destination options).
Proof.
  intros Hlstat Hcopy Hopen Hmkdir Hcreate Hpipe Hend Hutimes Hchmod.
  unfold cpFileAsync.
  repeat first
    [ apply appends_bind
    | apply appends_try_catch
    | apply appends_promise_of
    | apply appends_ret
    | apply appends_throw
    | apply appends_deliver; apply Hend
    | match goal with
      | |- forall _, appends _ _ => intro
      | |- appends _ (if ?b then _ else _) => destruct b
      | |- appends _ (match ?x with _ => _ end) => destruct x
      end
    | apply appends_call; solve [auto]
    | apply appends_silent; reflexivity ].
Qed.

End Appends.

(** [cpFileAsync] never reads a link's target. *)
Lemma cpFileAsync_never_readlink
    (source destination : string) (options : Options) (s : AsyncState World) :
  exists new,
    calls (fsState (fst (cpFileAsync fs source destination options s)))
      = calls (fsState s) ++ new
    /\ existsb is_readlink new = false.
Proof.
  destruct (cpFileAsync_appends (fun c => is_readlink c = false)
              source destination options) with (s := s) as (new & E & F);
    try reflexivity.
  exists new. split; [assumption |].
  clear E. induction F as [| c l Hc _ IH]; cbn; [reflexivity |].
  rewrite Hc, IH. reflexivity.
Qed.

Lemma cpFile_never_readlink
    (sourcePath destinationPath : PathArg) (options : option UserOptions)
    (s : FsState World) :
  exists new,
    calls (fst (cpFile fs sourcePath destinationPath options s)) = calls s ++ new
    /\ existsb is_readlink new = false.
Proof.
  unfold cpFile.
  destruct (negb (truthy sourcePath) || negb (truthy destinationPath)).
  - exists []. rewrite app_nil_r. split; reflexivity.
  - match goal with
    | |- context [cpFileAsync fs ?src ?dst ?o ?a] =>
        destruct (cpFileAsync_never_readlink src dst o a) as (new & E & F);
        destruct (cpFileAsync fs src dst o a) as [a' r]
    end.
    exists new. split; assumption.
Qed.

(** C6.  When the source is a symbolic link and [followSymlinks] is true,
    [sync] reads the link's target right after the stat and hands that
    target, not the link's path, to the copy (the only copy of the run).
    The asynchronous entry point never calls [readlinkSync], whatever its
    arguments and whatever the filesystem answers. *)
Theorem sync_copies_from_link_target
    (source destination : string) (user : option UserOptions)
    (s : FsState World) (w1 w2 w3 : World) (stat : Stats.t) (target : string) :
  source <> "" -> destination <> "" ->
  followSymlinks (normalizeOptions user) = true ->
  lstatSync fs source (world s) = (w1, Normal stat) ->
  Stats.isDirectory stat = false ->
  Stats.isSymbolicLink stat = true ->
  readlinkSync fs source w1 = (w2, Normal target) ->
  makeDirSync fs (dirname fs destination) w2 = (w3, Normal tt) ->
  (exists rest,
     calls (fst (sync fs (JsStr source) (JsStr destination) user s))
     = calls s
         ++ [Call_lstatSync source;
             Call_readlinkSync source;
             Call_makeDirSync (dirname fs destination);
             Call_copyFileSync target destination
               (if overwrite (normalizeOptions user) then None else Some COPYFILE_EXCL)]
         ++ rest
     /\ (rest = []
         \/ rest = [Call_utimesSync destination (Stats.atime stat) (Stats.mtime stat)]))
  /\ (forall (sourcePath destinationPath : PathArg) (options : option UserOptions)
             (a : FsState World),
        exists new,
          calls (fst (cpFile fs sourcePath destinationPath options a)) = calls a ++ new
          /\ existsb is_readlink new = false).
Proof.
  intros Hs Hd Hfollow Hstat Hdir Hlink Htarget Hmk.
  split; [| apply cpFile_never_readlink].
  unfold sync. rewrite (truthy_JsStr _ Hs), (truthy_JsStr _ Hd).
  unfold checkSourceIsFile. unfold_ops. run_with_answers.
  destruct (copyFileSync fs target destination _ w3) as [w4 [[] | copyError]]; cbn.
  - destruct (utimesSync fs destination _ _ w4) as [w5 updated]; cbn.
    eexists. repeat rewrite <- app_assoc. cbn [app].
    split; [reflexivity | right; reflexivity].
  - destruct (negb (overwrite (normalizeOptions user)) && code_is copyError "EEXIST");
      cbn; exists []; repeat rewrite <- app_assoc; split; auto.
Qed.

(** *** The link-preserving branch *)

(** X18.  In the link-preserving branch, a copy refused with code "EEXIST"
    while [overwrite] is false is raised as a wrapped destination-write
    failure that names the destination; the refused copy is the last call of
    the run. *)
Lemma link_copy_EEXIST_raises
    (source destination : string) (options : Options) (s : AsyncState World)
    (w1 w2 : World) (stat : Stats.t) (copyError : JsError) :
  lstat fs source (world (fsState s)) = (w1, Normal stat) ->
  Stats.isSymbolicLink stat = true ->
  followSymlinks options = false ->
  overwrite options = false ->
  copyFileSync fs source destination (Some COPYFILE_EXCL) w1 = (w2, Throw copyError) ->
  err_code copyError = Some "EEXIST" ->
  let result := cpFileAsync fs source destination options s in
  snd result = Throw (write_failure destination copyError)
  /\ fsState (fst result)
     = {| world := w2;
          calls := calls (fsState s)
                     ++ [Call_lstat source;
                         Call_copyFileSync source destination (Some COPYFILE_EXCL)] |}.
Proof.
  intros Hstat Hlink Hfollow Hover Hcopy Hcode result. subst result.
  unfold cpFileAsync. rewrite Hover. unfold_ops. run_with_answers.
  unfold code_is. rewrite Hcode. cbn.
  repeat rewrite <- app_assoc. split; reflexivity.
Qed.

(** X21.  After a link copy that succeeded, the progress is set to the full
    size and the metadata step follows: a fresh stat of the source, then
    both updates of the destination; no directory is created and no stream
    is opened. *)
Lemma link_copy_success_updates_stats
    (source destination : string) (options : Options) (s : AsyncState World)
    (w1 w2 w3 w4 w5 : World) (stat stats : Stats.t) (p1 p2 : Completion unit) :
  lstat fs source (world (fsState s)) = (w1, Normal stat) ->
  Stats.isSymbolicLink stat = true ->
  followSymlinks options = false ->
  copyFileSync fs source destination
    (if overwrite options then None else Some COPYFILE_EXCL) w1
    = (w2, Normal tt) ->
  lstat fs source w2 = (w3, Normal stats) ->
  utimes fs destination (Stats.atime stats) (Stats.mtime stats) w3 = (w4, p1) ->
  chmod fs destination (Stats.mode stats) w4 = (w5, p2) ->
  let result := cpFileAsync fs source destination options s in
  calls (fsState (fst result))
    = calls (fsState s)
        ++ [Call_lstat source;
            Call_copyFileSync source destination
              (if overwrite options then None else Some COPYFILE_EXCL);
            Call_lstat source;
            Call_utimes destination (Stats.atime stats) (Stats.mtime stats);
            Call_chmod destination (Stats.mode stats)]
  /\ snd result = Promise_all2 (chmod_rejects_first fs w5) p1 p2
  /\ ProgressEmitter.writtenBytes (emitter (fst result)) = Stats.size stat.
Proof.
  intros Hstat Hlink Hfollow Hcopy Hstats Hutimes Hchmod result.
  subst result. unfold cpFileAsync. unfold_ops. run_with_answers.
  repeat rewrite <- app_assoc. repeat split.
Qed.

(** C1 (the code departs from it).  In the link-preserving branch the
    [catch] of lines 30-34 rethrows in one case only; a copy that fails
    otherwise (with another code, or with [overwrite] true) is absorbed.
    The run goes on as after a successful copy: the progress is set to the
    full size and, when the metadata step succeeds, the operation is
    fulfilled, so the failure of the copy never reaches the caller. *)
Theorem link_copy_failure_absorbed
    (source destination : string) (options : Options) (s : AsyncState World)
    (w1 w2 w3 w4 w5 : World) (stat stats : Stats.t) (copyError : JsError) :
  lstat fs source (world (fsState s)) = (w1, Normal stat) ->
  Stats.isSymbolicLink stat = true ->
  followSymlinks options = false ->
  copyFileSync fs source destination
    (if overwrite options then None else Some COPYFILE_EXCL) w1
    = (w2, Throw copyError) ->
  negb (overwrite options) && code_is copyError "EEXIST" = false ->
  lstat fs source w2 = (w3, Normal stats) ->
  utimes fs destination (Stats.atime stats) (Stats.mtime stats) w3 = (w4, Normal tt) ->
  chmod fs destination (Stats.mode stats) w4 = (w5, Normal tt) ->
  let result := cpFileAsync fs source destination options s in
  snd result = Normal RetArray2
  /\ ProgressEmitter.writtenBytes (emitter (fst result)) = Stats.size stat
  /\ world (fsState (fst result)) = w5.
Proof.
  intros Hstat Hlink Hfollow Hcopy Habsorb Hstats Hutimes Hchmod result.
  subst result. unfold cpFileAsync. unfold_ops. run_with_answers.
  repeat split.
Qed.

(** C4 (the code departs from it).  In the link-preserving branch a failed
    copy that the [catch] absorbs is followed by the metadata step all the
    same: the source is stat'ed again and, when that stat succeeds, the
    timestamp update and the mode update of the destination are both
    started, and the operation settles as the two of them do. *)
Theorem metadata_attempted_after_failed_link_copy
    (source destination : string) (options : Options) (s : AsyncState World)
    (w1 w2 w3 w4 w5 : World) (stat stats : Stats.t) (copyError : JsError)
    (p1 p2 : Completion unit) :
  lstat fs source (world (fsState s)) = (w1, Normal stat) ->
  Stats.isSymbolicLink stat = true ->
  followSymlinks options = false ->
  copyFileSync fs source destination
    (if overwrite options then None else Some COPYFILE_EXCL) w1
    = (w2, Throw copyError) ->
  negb (overwrite options) && code_is copyError "EEXIST" = false ->
  lstat fs source w2 = (w3, Normal stats) ->
  utimes fs destination (Stats.atime stats) (Stats.mtime stats) w3 = (w4, p1) ->
  chmod fs destination (Stats.mode stats) w4 = (w5, p2) ->
  let result := cpFileAsync fs source destination options s in
  calls (fsState (fst result))
    = calls (fsState s)
        ++ [Call_lstat source;
            Call_copyFileSync source destination
              (if overwrite options then None else Some COPYFILE_EXCL);
            Call_lstat source;
            Call_utimes destination (Stats.atime stats) (Stats.mtime stats);
            Call_chmod destination (Stats.mode stats)]
  /\ snd result = Promise_all2 (chmod_rejects_first fs w5) p1 p2.
Proof.
  intros Hstat Hlink Hfollow Hcopy Habsorb Hstats Hutimes Hchmod result.
  subst result. unfold cpFileAsync. unfold_ops. run_with_answers.
  repeat rewrite <- app_assoc. split; reflexivity.
Qed.

(** *** The metadata step after a clean streamed transfer *)

(** [Promise.all] is fulfilled exactly when both updates are: the failure of
    either one fails the whole. *)
Lemma Promise_all2_fulfilled (second_first : bool) (p1 p2 : Completion unit) :
  Promise_all2 second_first p1 p2 = Normal RetArray2
  <-> p1 = Normal tt /\ p2 = Normal tt.
Proof.
  destruct p1 as [[] | e1], p2 as [[] | e2]; cbn; try destruct second_first;
    split; intros H; try discriminate; try reflexivity; try (split; reflexivity);
    destruct H; discriminate.
Qed.

Lemma Promise_all2_rejected (second_first : bool) (p1 p2 : Completion unit) :
  (exists e, p1 = Throw e) \/ (exists e, p2 = Throw e) ->
  exists e, Promise_all2 second_first p1 p2 = Throw e
            /\ (p1 = Throw e \/ p2 = Throw e).
Proof.
  destruct p1 as [[] | e1], p2 as [[] | e2]; cbn; try destruct second_first;
    intros [[e H] | [e H]]; try discriminate; eauto.
Qed.

(** X19.  A transfer whose write stream closed and whose read side reported
    no failure is followed by the metadata step: a fresh stat of the source,
    then both updates of the destination with the times and the mode of that
    fresh stat, the mode update being started whatever becomes of the
    timestamp update; the operation settles as [Promise.all] of the two. *)
Lemma streaming_clean_transfer_updates_stats
    (source destination : string) (options : Options) (s : AsyncState World)
    (w1 w2 w3 w4 w5 w6 w7 w8 : World) (stat stats : Stats.t)
    (rs : ReadStream) (ws : WriteStream) (run : StreamRun)
    (p1 p2 : Completion unit) :
  lstat fs source (world (fsState s)) = (w1, Normal stat) ->
  Stats.isSymbolicLink stat && negb (followSymlinks options) = false ->
  createReadStream fs source w1 = (w2, Normal rs) ->
  makeDir fs (dirname fs destination) w2 = (w3, Normal tt) ->
  createWriteStream fs destination (if overwrite options then "w" else "wx") w3
    = (w4, ws) ->
  pipe fs rs ws w4 = (w5, run) ->
  first_read_error (readEvents run) = None ->
  writeSettle run = WClose ->
  lstat fs source w5 = (w6, Normal stats) ->
  utimes fs destination (Stats.atime stats) (Stats.mtime stats) w6 = (w7, p1) ->
  chmod fs destination (Stats.mode stats) w7 = (w8, p2) ->
  let result := cpFileAsync fs source destination options s in
  calls (fsState (fst result))
    = calls (fsState s)
        ++ [Call_lstat source;
            Call_createReadStream source;
            Call_makeDir (dirname fs destination);
            Call_createWriteStream destination (if overwrite options then "w" else "wx");
            Call_pipe (rs_path rs) (ws_path ws);
            Call_lstat source;
            Call_utimes destination (Stats.atime stats) (Stats.mtime stats);
            Call_chmod destination (Stats.mode stats)]
  /\ snd result = Promise_all2 (chmod_rejects_first fs w8) p1 p2
  /\ ProgressEmitter.writtenBytes (emitter (fst result)) = Stats.size stat.
Proof.
  intros Hstat Hbranch Hread Hdir Hwrite Hpipe Hfirst Hsettle Hstats Hutimes Hchmod
         result.
  subst result. unfold cpFileAsync. unfold_ops. run_with_answers.
  rewrite deliver_run, Hfirst. cbn. rewrite Hsettle. cbn.
  rewrite Hstats. cbn. rewrite Hutimes. cbn. rewrite Hchmod. cbn.
  rewrite progress_after_size. cbn.
  repeat rewrite <- app_assoc. repeat split.
Qed.

(** X20.  A transfer whose write stream failed, with whatever error, is
    rejected with the wrapped destination-write failure, and the run ends at
    the pipe (and at the end of the write stream, had the read side failed
    too): no stat, no timestamp update and no mode update follow. *)
Lemma streaming_write_failure_stops
    (source destination : string) (options : Options) (s : AsyncState World)
    (w1 w2 w3 w4 w5 : World) (stat : Stats.t)
    (rs : ReadStream) (ws : WriteStream) (run : StreamRun) (writeError : JsError) :
  lstat fs source (world (fsState s)) = (w1, Normal stat) ->
  Stats.isSymbolicLink stat && negb (followSymlinks options) = false ->
  createReadStream fs source w1 = (w2, Normal rs) ->
  makeDir fs (dirname fs destination) w2 = (w3, Normal tt) ->
  createWriteStream fs destination (if overwrite options then "w" else "wx") w3
    = (w4, ws) ->
  pipe fs rs ws w4 = (w5, run) ->
  writeSettle run = WError writeError ->
  let result := cpFileAsync fs source destination options s in
  calls (fsState (fst result))
    = calls (fsState s)
        ++ [Call_lstat source;
            Call_createReadStream source;
            Call_makeDir (dirname fs destination);
            Call_createWriteStream destination (if overwrite options then "w" else "wx");
            Call_pipe (rs_path rs) (ws_path ws)]
        ++ match first_read_error (readEvents run) with
           | Some _ => [Call_writeStream_end (ws_path ws)]
           | None => []
           end
  /\ snd result = Throw (write_failure destination writeError).
Proof.
  intros Hstat Hbranch Hread Hdir Hwrite Hpipe Hsettle result.
  subst result. unfold cpFileAsync. unfold_ops. run_with_answers.
  rewrite deliver_run.
  destruct (first_read_error (readEvents run)) as [readError |]; cbn;
    rewrite Hsettle; cbn; repeat rewrite <- app_assoc; split; reflexivity.
Qed.

End Properties.

(** * The reference filesystem refuses exclusive writes *)

Section ReferenceFilesystem.
Variables (w : MemFs.t) (source destination content old : string)
          (meta meta' : MemFs.Meta).
Hypothesis source_is_file : MemFs.nodes w !! source = Some (MemFs.File content meta).
Hypothesis destination_is_file :
  MemFs.nodes w !! destination = Some (MemFs.File old meta').
Hypothesis parent_is_dir : MemFs.is_dir w (MemFs.dirname destination) = true.

Lemma memfs_exclusive_copy_refused :
  MemFs.copyFileSync source destination (Some COPYFILE_EXCL) w
  = (w, Throw (MemFs.EEXIST destination)).
Proof.
  unfold MemFs.copyFileSync, MemFs.write_refusal.
  rewrite source_is_file, parent_is_dir, destination_is_file. reflexivity.
Qed.

Lemma memfs_exclusive_stream_refused (rs : ReadStream) :
  snd (MemFs.pipe rs {| ws_path := destination; ws_flags := "wx" |} w)
  = {| readEvents := fst (MemFs.read_side (rs_path rs) w);
       writeSettle := WError (MemFs.EEXIST destination) |}
  /\ fst (MemFs.pipe rs {| ws_path := destination; ws_flags := "wx" |} w) = w.
Proof.
  unfold MemFs.pipe, MemFs.write_refusal. cbn.
  rewrite parent_is_dir, destination_is_file.
  destruct (MemFs.read_side (rs_path rs) w). split; reflexivity.
Qed.

(** On the reference filesystem, [sync] without overwriting, from a file onto
    an existing file, returns normally and leaves the whole filesystem as it
    was. *)
Lemma memfs_sync_existing_destination_untouched (calls0 : list Call) :
  source <> "" -> destination <> "" ->
  sync memFs (JsStr source) (JsStr destination) no_overwrite
       {| world := w; calls := calls0 |}
  = ({| world := w;
        calls := calls0
          ++ [Call_lstatSync source;
              Call_makeDirSync (MemFs.dirname destination);
              Call_copyFileSync source destination (Some COPYFILE_EXCL)] |},
     Normal tt).
Proof.
  intros Hs Hd. unfold sync.
  rewrite (truthy_JsStr _ Hs), (truthy_JsStr _ Hd).
  unfold checkSourceIsFile. unfold_ops. cbn.
  unfold MemFs.lstat. rewrite source_is_file. cbn.
  assert (Hparent : exists m, MemFs.nodes w !! MemFs.dirname destination
                              = Some (MemFs.Dir m)).
  { pose proof parent_is_dir as H. unfold MemFs.is_dir in H.
    destruct (MemFs.nodes w !! MemFs.dirname destination) as [[| | m] |];
      try discriminate. exists m. reflexivity. }
  destruct Hparent as [m Hparent].
  unfold MemFs.makeDir. rewrite Hparent. cbn.
  rewrite memfs_exclusive_copy_refused. cbn.
  repeat rewrite <- app_assoc. reflexivity.
Qed.

End ReferenceFilesystem.

(** * Runs on the example filesystem *)

Lemma missing_path_configuration_error_witness :
  sync memFs (JsStr "") (JsStr "/d/copy.txt") None (initial example_disk)
    = (initial example_disk,
       Throw (CpFileError "`source` and `destination` required" None))
  /\ cpFile memFs JsUndefined (JsStr "/d/copy.txt") None (initial example_disk)
    = (initial example_disk,
       Normal {| settlement :=
                   Throw (CpFileError "`source` and `destination` required" None);
                 on_target := None |}).
Proof.
  split.
  - apply (missing_path_configuration_error memFs (JsStr "") (JsStr "/d/copy.txt")).
    left. right. right. reflexivity.
  - apply (missing_path_configuration_error memFs JsUndefined (JsStr "/d/copy.txt")).
    left. left. reflexivity.
Defined.

Lemma sync_directory_source_rejected_witness :
  exists error,
    sync memFs (JsStr "/d") (JsStr "/copy") None (initial example_disk)
      = ({| world := example_disk; calls := [Call_lstatSync "/d"] |}, Throw error)
    /\ err_code error = Some "EISDIR"
    /\ err_errno error = Some (-21)
    /\ err_source error = Some "/d"
    /\ err_message error
       = "EISDIR: illegal operation on a directory " +:+ rsquo +:+ "/d" +:+ rsquo.
Proof.
  apply (sync_directory_source_rejected memFs "/d" "/copy" None
           (initial example_disk) example_disk
           (MemFs.stats_of (MemFs.Dir (example_meta 493 5 5)))).
  - discriminate.
  - discriminate.
  - reflexivity.
  - reflexivity.
Defined.

(** Copying the faulty file onto the write-protected one: both sides fail,
    and the write failure is the one raised. *)
Lemma streaming_read_failure_deferred_witness :
  let result :=
    cpFileAsync memFs "/bad.bin" "/d/locked.txt" (normalizeOptions None)
                (example_async "/bad.bin" "/d/locked.txt") in
  calls (fsState (fst result))
    = [Call_lstat "/bad.bin"; Call_createReadStream "/bad.bin"; Call_makeDir "/d";
       Call_createWriteStream "/d/locked.txt" "w";
       Call_pipe "/bad.bin" "/d/locked.txt";
       Call_writeStream_end "/d/locked.txt"]
  /\ snd result
     = Throw (write_failure "/d/locked.txt" (MemFs.EACCES "/d/locked.txt")).
Proof.
  pose proof (streaming_read_failure_deferred memFs
                "/bad.bin" "/d/locked.txt" (normalizeOptions None)
                (example_async "/bad.bin" "/d/locked.txt")
                example_disk example_disk example_disk example_disk example_disk
                (MemFs.stats_of (MemFs.File "data" (example_meta 420 11 21)))
                {| rs_path := "/bad.bin" |}
                {| ws_path := "/d/locked.txt"; ws_flags := "w" |}
                {| readEvents := [EvData 0; EvError (MemFs.EIO "/bad.bin")];
                   writeSettle := WError (MemFs.EACCES "/d/locked.txt") |}
                (MemFs.EIO "/bad.bin")
                eq_refl eq_refl eq_refl eq_refl eq_refl eq_refl eq_refl) as H.
  cbv zeta in *. destruct H as (Hcalls & Hresult & _).
  split; [exact Hcalls | exact Hresult].
Defined.

(** Copying a dangling link: the open of the source fails, and nothing is
    done on the destination side. *)
Lemma streaming_opens_source_first_witness :
  let result :=
    cpFileAsync memFs "/dangling" "/e/copy.txt" (normalizeOptions None)
                (example_async "/dangling" "/e/copy.txt") in
  snd result = Throw (MemFs.ENOENT "/dangling")
  /\ fsState (fst result)
     = {| world := example_disk;
          calls := [Call_lstat "/dangling"; Call_createReadStream "/dangling"] |}.
Proof.
  exact (streaming_opens_source_first memFs
           "/dangling" "/e/copy.txt" (normalizeOptions None)
           (example_async "/dangling" "/e/copy.txt")
           example_disk
           (MemFs.stats_of (MemFs.Link "/nowhere" (example_meta 511 31 41)))
           eq_refl eq_refl).
Defined.

(** Copying onto the older file without overwriting. *)
Lemma exclusive_copy_onto_existing_destination_witness :
  snd (sync memFs (JsStr "/a.txt") (JsStr "/d/old.txt") no_overwrite
            (initial example_disk)) = Normal tt
  /\ snd (cpFileAsync memFs "/a.txt" "/d/old.txt" (normalizeOptions no_overwrite)
                      (example_async "/a.txt" "/d/old.txt"))
     = Throw (write_failure "/d/old.txt" (MemFs.EEXIST "/d/old.txt"))
  /\ err_code (write_failure "/d/old.txt" (MemFs.EEXIST "/d/old.txt")) = Some "EEXIST".
Proof.
  pose proof (exclusive_copy_onto_existing_destination memFs
                "/a.txt" "/d/old.txt" no_overwrite
                (initial example_disk)
                example_disk example_disk example_disk example_disk
                (MemFs.stats_of (MemFs.File "hello" (example_meta 420 10 20)))
                "/a.txt" (MemFs.EEXIST "/d/old.txt")
                (example_async "/a.txt" "/d/old.txt")
                example_disk example_disk example_disk example_disk example_disk
                (MemFs.stats_of (MemFs.File "hello" (example_meta 420 10 20)))
                {| rs_path := "/a.txt" |}
                {| ws_path := "/d/old.txt"; ws_flags := "wx" |}
                {| readEvents := [EvData 0];
                   writeSettle := WError (MemFs.EEXIST "/d/old.txt") |}
                (MemFs.EEXIST "/d/old.txt")) as H.
  destruct H as (Hsync & _ & Hasync & _ & Hcode & _);
    try reflexivity; try discriminate.
  repeat split; assumption.
Defined.

(** The older file is exactly as it was after the refused copy. *)
Lemma sync_silent_success_leaves_destination_witness :
  let result :=
    sync memFs (JsStr "/a.txt") (JsStr "/d/old.txt") no_overwrite
         (initial example_disk) in
  snd result = Normal tt
  /\ calls (fst result)
     = [Call_lstatSync "/a.txt"; Call_makeDirSync "/d";
        Call_copyFileSync "/a.txt" "/d/old.txt" (Some COPYFILE_EXCL)]
  /\ MemFs.nodes (world (fst result)) !! "/d/old.txt"
     = Some (MemFs.File "old" (example_meta 384 50 60)).
Proof.
  pose proof (sync_silent_success_leaves_destination memFs
                (fun w => MemFs.nodes w !! "/d/old.txt")
                "/a.txt" "/d/old.txt" no_overwrite
                (initial example_disk)
                example_disk example_disk example_disk example_disk
                (MemFs.stats_of (MemFs.File "hello" (example_meta 420 10 20)))
                "/a.txt" (MemFs.EEXIST "/d/old.txt")) as H.
  destruct H as (Hresult & Hcalls & _ & Hobserve);
    try reflexivity; try discriminate.
  cbv zeta. rewrite Hresult, Hcalls, Hobserve. repeat split.
Defined.

(** Copying through the link: the destination gets the link's times (30 and
    40), not those of the file it points to (10 and 20). *)
Lemma sync_followed_link_keeps_link_times_witness :
  let result :=
    sync memFs (JsStr "/ln") (JsStr "/d/copy.txt") None (initial example_disk) in
  calls (fst result)
    = [Call_lstatSync "/ln"; Call_readlinkSync "/ln"; Call_makeDirSync "/d";
       Call_copyFileSync "/a.txt" "/d/copy.txt" None;
       Call_utimesSync "/d/copy.txt" 30 40]
  /\ snd result = Normal tt
  /\ MemFs.nodes (world (fst result)) !! "/d/copy.txt"
     = Some (MemFs.File "hello" (example_meta 420 30 40)).
Proof.
  pose (copied := fst (MemFs.copyFileSync "/a.txt" "/d/copy.txt" None example_disk)).
  pose (updated := fst (MemFs.utimes "/d/copy.txt" 30 40 copied)).
  cbv zeta.
  rewrite (sync_followed_link_keeps_link_times memFs
             "/ln" "/d/copy.txt" None (initial example_disk)
             example_disk example_disk example_disk copied updated
             (MemFs.stats_of (MemFs.Link "/a.txt" (example_meta 511 30 40)))
             "/a.txt" (Normal tt));
    try reflexivity; try discriminate.
  repeat split.
Defined.

Lemma sync_copies_from_link_target_witness :
  exists rest,
    calls (fst (sync memFs (JsStr "/ln") (JsStr "/d/copy.txt") None
                     (initial example_disk)))
    = [Call_lstatSync "/ln"; Call_readlinkSync "/ln"; Call_makeDirSync "/d";
       Call_copyFileSync "/a.txt" "/d/copy.txt" None] ++ rest.
Proof.
  destruct (sync_copies_from_link_target memFs
              "/ln" "/d/copy.txt" None (initial example_disk)
              example_disk example_disk example_disk
              (MemFs.stats_of (MemFs.Link "/a.txt" (example_meta 511 30 40)))
              "/a.txt") as [(rest & Hcalls & _) _];
    try reflexivity; try discriminate.
  exists rest. exact Hcalls.
Defined.

(** Copying the link, as a link, onto an existing directory: the copy is
    refused with code "EISDIR", and the operation is fulfilled all the same. *)
Lemma link_copy_failure_absorbed_witness :
  MemFs.copyFileSync "/ln" "/d" None example_disk
    = (example_disk, Throw (MemFs.EISDIR "/d"))
  /\ (let result :=
        cpFileAsync memFs "/ln" "/d" (normalizeOptions keep_links)
                    (example_async "/ln" "/d") in
      snd result = Normal RetArray2
      /\ ProgressEmitter.writtenBytes (emitter (fst result)) = 6).
Proof.
  split; [reflexivity |].
  pose (timed := fst (MemFs.utimes "/d" 30 40 example_disk)).
  pose (moded := fst (MemFs.chmod "/d" 511 timed)).
  destruct (link_copy_failure_absorbed memFs
              "/ln" "/d" (normalizeOptions keep_links) (example_async "/ln" "/d")
              example_disk example_disk example_disk timed moded
              (MemFs.stats_of (MemFs.Link "/a.txt" (example_meta 511 30 40)))
              (MemFs.stats_of (MemFs.Link "/a.txt" (example_meta 511 30 40)))
              (MemFs.EISDIR "/d")) as (Hresult & Hwritten & _);
    try reflexivity.
  split; [exact Hresult | exact Hwritten].
Defined.

(** The same run, call by call: the stat, the refused copy, and then the
    metadata step on the directory that was not written. *)
Lemma metadata_attempted_after_failed_link_copy_witness :
  let result :=
    cpFileAsync memFs "/ln" "/d" (normalizeOptions keep_links)
                (example_async "/ln" "/d") in
  calls (fsState (fst result))
    = [Call_lstat "/ln"; Call_copyFileSync "/ln" "/d" None; Call_lstat "/ln";
       Call_utimes "/d" 30 40; Call_chmod "/d" 511]
  /\ snd result = Normal RetArray2.
Proof.
  pose (timed := fst (MemFs.utimes "/d" 30 40 example_disk)).
  pose (moded := fst (MemFs.chmod "/d" 511 timed)).
  exact (metadata_attempted_after_failed_link_copy memFs
           "/ln" "/d" (normalizeOptions keep_links) (example_async "/ln" "/d")
           example_disk example_disk example_disk timed moded
           (MemFs.stats_of (MemFs.Link "/a.txt" (example_meta 511 30 40)))
           (MemFs.stats_of (MemFs.Link "/a.txt" (example_meta 511 30 40)))
           (MemFs.EISDIR "/d") (Normal tt) (Normal tt)
           eq_refl eq_refl eq_refl eq_refl eq_refl eq_refl eq_refl eq_refl).
Defined.

(** * Further properties of the entry points *)

(** Case analysis on every answer and every test of a [sync] run. *)
Ltac explore_sync :=
  repeat (cbn;
          match goal with
          | |- context [lstatSync ?f ?p ?w] => destruct (lstatSync f p w) as [? [? | ?]]
          | |- context [readlinkSync ?f ?p ?w] =>
              destruct (readlinkSync f p w) as [? [? | ?]]
          | |- context [makeDirSync ?f ?p ?w] =>
              destruct (makeDirSync f p w) as [? [[] | ?]]
          | |- context [copyFileSync ?f ?p ?q ?x ?w] =>
              destruct (copyFileSync f p q x w) as [? [[] | ?]]
          | |- context [utimesSync ?f ?p ?a ?m ?w] =>
              destruct (utimesSync f p a m w) as [? [[] | ?]]
          | |- context [if ?b then _ else _] => destruct b eqn:?
          end);
  cbn.

Section SyncProperties.
Context {World : Type} (fs : FsApi World).

(** X1.  A copy that fails in [sync], other than with code "EEXIST" while
    [overwrite] is false, is thrown to the caller as the very error the copy
    raised (it is not wrapped), and no timestamp is applied: the failed copy
    is the last call of the run. *)
Theorem sync_copy_failure_propagates
    (source destination : string) (user : option UserOptions)
    (s : FsState World) (w1 w2 w3 w4 : World) (stat : Stats.t)
    (source' : string) (copyError : JsError) :
  source <> "" -> destination <> "" ->
  lstatSync fs source (world s) = (w1, Normal stat) ->
  Stats.isDirectory stat = false ->
  resolved_source fs stat (normalizeOptions user) source w1 = (w2, Normal source') ->
  makeDirSync fs (dirname fs destination) w2 = (w3, Normal tt) ->
  copyFileSync fs source' destination
    (if overwrite (normalizeOptions user) then None else Some COPYFILE_EXCL) w3
    = (w4, Throw copyError) ->
  negb (overwrite (normalizeOptions user)) && code_is copyError "EEXIST" = false ->
  sync fs (JsStr source) (JsStr destination) user s
  = ({| world := w4;
        calls := calls s
          ++ Call_lstatSync source
          :: (if Stats.isSymbolicLink stat && followSymlinks (normalizeOptions user)
              then [Call_readlinkSync source] else [])
          ++ [Call_makeDirSync (dirname fs destination);
              Call_copyFileSync source' destination
                (if overwrite (normalizeOptions user) then None
                 else Some COPYFILE_EXCL)] |},
     Throw copyError).
Proof.
  intros Hs Hd Hstat Hdir Hsrc Hmk Hcopy Hkeep.
  unfold sync. rewrite (truthy_JsStr _ Hs), (truthy_JsStr _ Hd).
  unfold checkSourceIsFile, resolved_source in *.
  unfold_ops. cbn [str_of negb orb].
  rewrite Hstat. cbn. rewrite Hdir.
  destruct (Stats.isSymbolicLink stat && followSymlinks (normalizeOptions user));
    cbn; [rewrite Hsrc | injection Hsrc as <- <-]; cbn;
    rewrite Hmk; cbn; rewrite Hcopy; cbn; rewrite Hkeep; cbn;
    repeat rewrite <- app_assoc; reflexivity.
Qed.

(** X2.  When the stat of the source fails, [sync] throws that error as it
    is, and the stat is the only call of the run. *)
Theorem sync_stat_failure_propagates
    (source destination : string) (user : option UserOptions)
    (s : FsState World) (w1 : World) (statError : JsError) :
  source <> "" -> destination <> "" ->
  lstatSync fs source (world s) = (w1, Throw statError) ->
  sync fs (JsStr source) (JsStr destination) user s
  = ({| world := w1; calls := calls s ++ [Call_lstatSync source] |}, Throw statError).
Proof.
  intros Hs Hd Hstat.
  unfold sync. rewrite (truthy_JsStr _ Hs), (truthy_JsStr _ Hd).
  unfold_ops. run_with_answers. reflexivity.
Qed.

(** X3.  When the link's target cannot be read, or the destination's
    directory cannot be created, [sync] throws that error as it is and stops
    there: no copy is attempted. *)
Theorem sync_failure_before_copy
    (source destination : string) (user : option UserOptions)
    (s : FsState World) (w1 : World) (stat : Stats.t) :
  source <> "" -> destination <> "" ->
  lstatSync fs source (world s) = (w1, Normal stat) ->
  Stats.isDirectory stat = false ->
  let result := sync fs (JsStr source) (JsStr destination) user s in
  let resolving := Stats.isSymbolicLink stat && followSymlinks (normalizeOptions user) in
  match resolved_source fs stat (normalizeOptions user) source w1 with
  | (w2, Throw linkError) =>
      result = ({| world := w2;
                   calls := calls s ++ [Call_lstatSync source; Call_readlinkSync source] |},
                Throw linkError)
  | (w2, Normal source') =>
      match makeDirSync fs (dirname fs destination) w2 with
      | (w3, Throw dirError) =>
          result = ({| world := w3;
                       calls := calls s
                         ++ Call_lstatSync source
                         :: (if resolving then [Call_readlinkSync source] else [])
                         ++ [Call_makeDirSync (dirname fs destination)] |},
                    Throw dirError)
      | (w3, Normal _) =>
          existsb is_link_copy (calls (fst result)) = true
      end
  end.
Proof.
  intros Hs Hd Hstat Hdir result resolving. subst result resolving.
  unfold sync. rewrite (truthy_JsStr _ Hs), (truthy_JsStr _ Hd).
  unfold checkSourceIsFile, resolved_source. unfold_ops. cbn [str_of negb orb].
  rewrite Hstat. cbn. rewrite Hdir.
  destruct (Stats.isSymbolicLink stat && followSymlinks (normalizeOptions user)); cbn.
  - destruct (readlinkSync fs source w1) as [w2' [source' | linkError]]; cbn.
    + destruct (makeDirSync fs (dirname fs destination) w2') as [w3 [[] | dirError]];
        cbn.
      * explore_sync; rewrite !existsb_app; cbn;
          rewrite ?orb_true_r; reflexivity.
      * repeat rewrite <- app_assoc. reflexivity.
    + repeat rewrite <- app_assoc. reflexivity.
  - destruct (makeDirSync fs (dirname fs destination) w1) as [w3 [[] | dirError]]; cbn.
    + explore_sync; rewrite !existsb_app; cbn; rewrite ?orb_true_r; reflexivity.
    + repeat rewrite <- app_assoc. reflexivity.
Qed.

(** X4.  Unless the source is a symbolic link and [followSymlinks] is true,
    [sync] never reads a link target: after the stat it creates the
    destination's directory and copies from the source path as given (for a
    link with [followSymlinks] false, the link itself). *)
Theorem sync_without_resolution_copies_source
    (source destination : string) (user : option UserOptions)
    (s : FsState World) (w1 w2 : World) (stat : Stats.t) :
  source <> "" -> destination <> "" ->
  lstatSync fs source (world s) = (w1, Normal stat) ->
  Stats.isDirectory stat = false ->
  Stats.isSymbolicLink stat && followSymlinks (normalizeOptions user) = false ->
  makeDirSync fs (dirname fs destination) w1 = (w2, Normal tt) ->
  exists rest,
    calls (fst (sync fs (JsStr source) (JsStr destination) user s))
    = calls s
        ++ [Call_lstatSync source;
            Call_makeDirSync (dirname fs destination);
            Call_copyFileSync source destination
              (if overwrite (normalizeOptions user) then None else Some COPYFILE_EXCL)]
        ++ rest
    /\ existsb is_readlink rest = false.
Proof.
  intros Hs Hd Hstat Hdir Hplain Hmk.
  unfold sync. rewrite (truthy_JsStr _ Hs), (truthy_JsStr _ Hd).
  unfold checkSourceIsFile. unfold_ops. run_with_answers.
  explore_sync; eexists; repeat rewrite <- app_assoc; cbn [app];
    (split; [reflexivity | reflexivity]) || (exists []).
Qed.


(** X6.  Whatever the arguments and the filesystem, [sync] makes at most five
    calls, all of them synchronous: it stats and resolves the source only,
    creates the directory of the destination only, copies onto the
    destination only (exclusively exactly when [overwrite] is false) and
    sets the times of the destination only.  It never changes a mode and
    never opens a stream. *)
Theorem sync_calls_shape
    (source destination : PathArg) (user : option UserOptions) (s : FsState World) :
  exists new,
    calls (fst (sync fs source destination user s)) = calls s ++ new
    /\ Forall (sync_target fs (str_of source) (str_of destination)
                           (normalizeOptions user)) new
    /\ (length new <= 5)%nat.
Proof.
  unfold sync, checkSourceIsFile. unfold_ops.
  explore_sync;
    first [ exists []; split; [symmetry; apply app_nil_r | split; [constructor | cbn; lia]]
          | eexists; split;
            [ repeat rewrite <- app_assoc; reflexivity
            | split; [repeat constructor | cbn; lia] ] ];
    match goal with H : overwrite _ = _ |- _ => rewrite H; reflexivity end.
Qed.

(** X22.  After a copy that succeeded, [sync] sets the access and
    modification times of the destination to those of the stat made at the
    start of the call, as its last call; what that update returns or throws
    is what [sync] returns or throws. *)
Theorem sync_copy_then_times
    (source destination : string) (user : option UserOptions)
    (s : FsState World) (w1 w2 w3 w4 w5 : World) (stat : Stats.t)
    (source' : string) (updated : Completion unit) :
  source <> "" -> destination <> "" ->
  lstatSync fs source (world s) = (w1, Normal stat) ->
  Stats.isDirectory stat = false ->
  resolved_source fs stat (normalizeOptions user) source w1 = (w2, Normal source') ->
  makeDirSync fs (dirname fs destination) w2 = (w3, Normal tt) ->
  copyFileSync fs source' destination
    (if overwrite (normalizeOptions user) then None else Some COPYFILE_EXCL) w3
    = (w4, Normal tt) ->
  utimesSync fs destination (Stats.atime stat) (Stats.mtime stat) w4 = (w5, updated) ->
  sync fs (JsStr source) (JsStr destination) user s
  = ({| world := w5;
        calls := calls s
          ++ Call_lstatSync source
          :: (if Stats.isSymbolicLink stat && followSymlinks (normalizeOptions user)
              then [Call_readlinkSync source] else [])
          ++ [Call_makeDirSync (dirname fs destination);
              Call_copyFileSync source' destination
                (if overwrite (normalizeOptions user) then None
                 else Some COPYFILE_EXCL);
              Call_utimesSync destination (Stats.atime stat) (Stats.mtime stat)] |},
     updated).
Proof.
  intros Hs Hd Hstat Hdir Hsrc Hmk Hcopy Htimes.
  unfold sync. rewrite (truthy_JsStr _ Hs), (truthy_JsStr _ Hd).
  unfold checkSourceIsFile, resolved_source in *.
  unfold_ops. cbn [str_of negb orb].
  rewrite Hstat. cbn. rewrite Hdir.
  destruct (Stats.isSymbolicLink stat && followSymlinks (normalizeOptions user));
    cbn; [rewrite Hsrc | injection Hsrc as <- <-]; cbn;
    rewrite Hmk; cbn; rewrite Hcopy; cbn; rewrite Htimes;
    repeat rewrite <- app_assoc; reflexivity.
Qed.

End SyncProperties.

(** Case analysis on every answer and every test of a run of the engine. *)
Ltac explore_async :=
  repeat (cbn;
          first
            [ rewrite deliver_run
            | match goal with
              | |- context [lstat ?f ?p ?w] =>
                  destruct (lstat f p w) as [? [? | ?]] eqn:?
              | |- context [copyFileSync ?f ?p ?q ?x ?w] =>
                  destruct (copyFileSync f p q x w) as [? [[] | ?]] eqn:?
              | |- context [createReadStream ?f ?p ?w] =>
                  destruct (createReadStream f p w) as [? [? | ?]] eqn:?
              | |- context [makeDir ?f ?p ?w] =>
                  destruct (makeDir f p w) as [? [[] | ?]] eqn:?
              | |- context [createWriteStream ?f ?p ?x ?w] =>
                  destruct (createWriteStream f p x w) as [? ?] eqn:?
              | |- context [pipe ?f ?r ?x ?w] => destruct (pipe f r x w) as [? ?] eqn:?
              | |- context [utimes ?f ?p ?a ?m ?w] =>
                  destruct (utimes f p a m w) as [? [[] | ?]] eqn:?
              | |- context [chmod ?f ?p ?m ?w] =>
                  destruct (chmod f p m w) as [? [[] | ?]] eqn:?
              | |- context [match first_read_error ?e with _ => _ end] =>
                  destruct (first_read_error e) eqn:?
              | |- context [match writeSettle ?r with _ => _ end] =>
                  destruct (writeSettle r) eqn:?
              | |- context [if ?b then _ else _] => destruct b eqn:?
              end ]);
  cbn.

Section AsyncProperties.
Context {World : Type} (fs : FsApi World).

(** X7.  When the stat of the source fails, the engine rejects with that
    error as it is; the stat is the only call of the run and the progress
    emitter is not touched (no size, no event). *)
Theorem cpFileAsync_stat_failure
    (source destination : string) (options : Options) (s : AsyncState World)
    (w1 : World) (statError : JsError) :
  lstat fs source (world (fsState s)) = (w1, Throw statError) ->
  cpFileAsync fs source destination options s
  = ({| fsState := {| world := w1; calls := calls (fsState s) ++ [Call_lstat source] |};
        emitter := emitter s |},
     Throw statError).
Proof.
  intros Hstat. unfold cpFileAsync. unfold_ops. run_with_answers. reflexivity.
Qed.

(** X8.  In the streaming branch, when the destination's directory cannot be
    created, the engine rejects with that error as it is (it is not wrapped
    as a write failure) and no write stream is created. *)
Theorem cpFileAsync_mkdir_failure
    (source destination : string) (options : Options) (s : AsyncState World)
    (w1 w2 w3 : World) (stat : Stats.t) (rs : ReadStream) (dirError : JsError) :
  lstat fs source (world (fsState s)) = (w1, Normal stat) ->
  Stats.isSymbolicLink stat && negb (followSymlinks options) = false ->
  createReadStream fs source w1 = (w2, Normal rs) ->
  makeDir fs (dirname fs destination) w2 = (w3, Throw dirError) ->
  cpFileAsync fs source destination options s
  = ({| fsState :=
          {| world := w3;
             calls := calls (fsState s)
               ++ [Call_lstat source; Call_createReadStream source;
                   Call_makeDir (dirname fs destination)] |};
        emitter := ProgressEmitter.set_size (Stats.size stat) (emitter s) |},
     Throw dirError).
Proof.
  intros Hstat Hbranch Hread Hdir.
  unfold cpFileAsync. unfold_ops. run_with_answers.
  repeat rewrite <- app_assoc. reflexivity.
Qed.

(** X9.  When the stat that follows a clean streamed transfer fails (the
    source is gone by then), the engine rejects with that error although the
    data was written and the progress already reports the full size;
    neither the timestamps nor the mode of the destination are set. *)
Theorem cpFileAsync_restat_failure
    (source destination : string) (options : Options) (s : AsyncState World)
    (w1 w2 w3 w4 w5 w6 : World) (stat : Stats.t)
    (rs : ReadStream) (ws : WriteStream) (run : StreamRun) (statError : JsError) :
  lstat fs source (world (fsState s)) = (w1, Normal stat) ->
  Stats.isSymbolicLink stat && negb (followSymlinks options) = false ->
  createReadStream fs source w1 = (w2, Normal rs) ->
  makeDir fs (dirname fs destination) w2 = (w3, Normal tt) ->
  createWriteStream fs destination (if overwrite options then "w" else "wx") w3
    = (w4, ws) ->
  pipe fs rs ws w4 = (w5, run) ->
  first_read_error (readEvents run) = None ->
  writeSettle run = WClose ->
  lstat fs source w5 = (w6, Throw statError) ->
  let result := cpFileAsync fs source destination options s in
  snd result = Throw statError
  /\ calls (fsState (fst result))
     = calls (fsState s)
         ++ [Call_lstat source;
             Call_createReadStream source;
             Call_makeDir (dirname fs destination);
             Call_createWriteStream destination (if overwrite options then "w" else "wx");
             Call_pipe (rs_path rs) (ws_path ws);
             Call_lstat source]
  /\ ProgressEmitter.writtenBytes (emitter (fst result)) = Stats.size stat.
Proof.
  intros Hstat Hbranch Hread Hdir Hwrite Hpipe Hfirst Hsettle Hstats result.
  subst result. unfold cpFileAsync. unfold_ops. run_with_answers.
  rewrite deliver_run, Hfirst. cbn. rewrite Hsettle. cbn.
  rewrite Hstats. cbn. rewrite progress_after_size. cbn.
  repeat rewrite <- app_assoc. repeat split.
Qed.

(** X10.  Whenever the engine is fulfilled, it is fulfilled with the pair of
    [Promise.all], the progress reports as many bytes written as the size,
    and the run ended with the metadata step: a stat of the source, then the
    timestamp update and the mode update of the destination. *)
Theorem cpFileAsync_fulfilled
    (source destination : string) (options : Options) (s : AsyncState World)
    (value : JsReturn) :
  snd (cpFileAsync fs source destination options s) = Normal value ->
  let result := cpFileAsync fs source destination options s in
  value = RetArray2
  /\ ProgressEmitter.writtenBytes (emitter (fst result))
     = ProgressEmitter.size (emitter (fst result))
  /\ exists front atime mtime mode,
       calls (fsState (fst result))
       = calls (fsState s) ++ front
           ++ [Call_lstat source;
               Call_utimes destination atime mtime;
               Call_chmod destination mode].
Proof.
  cbv zeta. unfold cpFileAsync. unfold_ops.
  explore_async; intros H; try discriminate H; injection H as <-;
    repeat rewrite <- app_assoc; cbn [app];
    (split; [reflexivity |]); (split; [reflexivity |]);
    first [ eexists [_; _; _; _; _], _, _, _; reflexivity
          | eexists [_; _], _, _, _; reflexivity ].
Qed.

(** X11.  Once the first stat has succeeded, the size held by the progress
    emitter is the size that stat reported, however the run goes on. *)
Theorem cpFileAsync_size_is_stat_size
    (source destination : string) (options : Options) (s : AsyncState World)
    (w1 : World) (stat : Stats.t) :
  lstat fs source (world (fsState s)) = (w1, Normal stat) ->
  ProgressEmitter.size (emitter (fst (cpFileAsync fs source destination options s)))
  = Stats.size stat.
Proof.
  intros Hstat. unfold cpFileAsync. unfold_ops. run_with_answers.
  explore_async; rewrite ?progress_after_size; reflexivity.
Qed.

(** X12.  A run of the engine either copies the link or streams, never
    both: if [copyFileSync] is called, no read stream is opened, no
    directory is created, no write stream is created and nothing is piped. *)
Theorem cpFileAsync_link_or_stream
    (source destination : string) (options : Options) (s : AsyncState World) :
  exists new,
    calls (fsState (fst (cpFileAsync fs source destination options s)))
      = calls (fsState s) ++ new
    /\ existsb is_link_copy new && existsb is_stream_call new = false.
Proof.
  unfold cpFileAsync. unfold_ops.
  explore_async; eexists; repeat rewrite <- app_assoc; split; reflexivity.
Qed.

(** X13.  The write stream is ended by the engine at most once in a run,
    however many 'error' events the read stream delivers. *)
Theorem cpFileAsync_ends_write_stream_once
    (source destination : string) (options : Options) (s : AsyncState World) :
  exists new,
    calls (fsState (fst (cpFileAsync fs source destination options s)))
      = calls (fsState s) ++ new
    /\ (length (List.filter is_write_end new) <= 1)%nat.
Proof.
  unfold cpFileAsync. unfold_ops.
  explore_async; eexists; repeat rewrite <- app_assoc;
    (split; [reflexivity | cbn; lia]).
Qed.

(** X14.  Whatever the filesystem answers, the engine makes at most eight
    calls and addresses the paths it was given: it stats, copies from and
    opens the source only; it creates the directory of the destination only;
    it copies onto, opens for writing and updates the destination only.  The
    copy is exclusive and the write stream is opened with "wx" exactly when
    [overwrite] is false.  It makes no synchronous call but the link copy. *)
Theorem cpFileAsync_call_targets
    (source destination : string) (options : Options) (s : AsyncState World) :
  exists new,
    calls (fsState (fst (cpFileAsync fs source destination options s)))
      = calls (fsState s) ++ new
    /\ Forall (async_target fs source destination options) new
    /\ (length new <= 8)%nat.
Proof.
  unfold cpFileAsync. unfold_ops.
  explore_async; eexists; repeat rewrite <- app_assoc;
    (split; [reflexivity | split; [| cbn; lia]]);
    repeat constructor;
    match goal with H : overwrite _ = _ |- _ => rewrite H; reflexivity end.
Qed.

(** *** Progress *)

Lemma progress_after_emitted (events : list ReadEvent) (pe : ProgressEmitter.t) :
  ProgressEmitter.emitted (progress_after events pe)
  = ProgressEmitter.emitted pe
      ++ map (fun n => (ProgressEmitter.size pe, n)) (data_values events).
Proof.
  revert pe. induction events as [| [n | e] rest IH]; intros pe; simpl.
  - rewrite app_nil_r. reflexivity.
  - rewrite IH. cbn. rewrite <- app_assoc. reflexivity.
  - apply IH.
Qed.


(** X15.  After a link copy that succeeded, the progress emitter has been
    assigned exactly twice, whatever the metadata step does: the size, and
    then all of it as written bytes, with no value in between. *)
Theorem link_copy_progress_jumps
    (source destination : string) (options : Options) (s : AsyncState World)
    (w1 w2 : World) (stat : Stats.t) :
  lstat fs source (world (fsState s)) = (w1, Normal stat) ->
  Stats.isSymbolicLink stat && negb (followSymlinks options) = true ->
  copyFileSync fs source destination
    (if overwrite options then None else Some COPYFILE_EXCL) w1
    = (w2, Normal tt) ->
  ProgressEmitter.emitted
    (emitter (fst (cpFileAsync fs source destination options s)))
  = ProgressEmitter.emitted (emitter s)
      ++ [(Stats.size stat, ProgressEmitter.writtenBytes (emitter s));
          (Stats.size stat, Stats.size stat)].
Proof.
  intros Hstat Hbranch Hcopy. unfold cpFileAsync. unfold_ops. run_with_answers.
  explore_async; repeat rewrite <- app_assoc; reflexivity.
Qed.

(** X16.  In a clean streamed transfer the progress emitter is assigned, in
    this order and whatever the metadata step does: the size; for every
    'data' event the write stream's counter at that moment; and at last the
    whole size as written bytes.  Every snapshot carries the stat's size. *)
Theorem streaming_progress_sequence
    (source destination : string) (options : Options) (s : AsyncState World)
    (w1 w2 w3 w4 w5 : World) (stat : Stats.t)
    (rs : ReadStream) (ws : WriteStream) (run : StreamRun) :
  lstat fs source (world (fsState s)) = (w1, Normal stat) ->
  Stats.isSymbolicLink stat && negb (followSymlinks options) = false ->
  createReadStream fs source w1 = (w2, Normal rs) ->
  makeDir fs (dirname fs destination) w2 = (w3, Normal tt) ->
  createWriteStream fs destination (if overwrite options then "w" else "wx") w3
    = (w4, ws) ->
  pipe fs rs ws w4 = (w5, run) ->
  first_read_error (readEvents run) = None ->
  writeSettle run = WClose ->
  ProgressEmitter.emitted
    (emitter (fst (cpFileAsync fs source destination options s)))
  = ProgressEmitter.emitted (emitter s)
      ++ (Stats.size stat, ProgressEmitter.writtenBytes (emitter s))
      :: map (fun n => (Stats.size stat, n)) (data_values (readEvents run))
      ++ [(Stats.size stat, Stats.size stat)].
Proof.
  intros Hstat Hbranch Hread Hdir Hwrite Hpipe Hfirst Hsettle.
  unfold cpFileAsync. unfold_ops. run_with_answers.
  rewrite deliver_run, Hfirst. cbn. rewrite Hsettle.
  explore_async; rewrite progress_after_size, progress_after_emitted; cbn;
    repeat rewrite <- app_assoc; reflexivity.
Qed.

(** *** The asynchronous entry point *)



End AsyncProperties.

(** * Further runs on the example filesystem *)

(** Copying onto the write-protected file: the copy's own error comes out. *)
Lemma sync_copy_failure_propagates_witness :
  sync memFs (JsStr "/a.txt") (JsStr "/d/locked.txt") None (initial example_disk)
  = ({| world := example_disk;
        calls := [Call_lstatSync "/a.txt"; Call_makeDirSync "/d";
                  Call_copyFileSync "/a.txt" "/d/locked.txt" None] |},
     Throw (MemFs.EACCES "/d/locked.txt")).
Proof.
  exact (sync_copy_failure_propagates memFs "/a.txt" "/d/locked.txt" None
           (initial example_disk)
           example_disk example_disk example_disk example_disk
           (MemFs.stats_of (MemFs.File "hello" (example_meta 420 10 20)))
           "/a.txt" (MemFs.EACCES "/d/locked.txt")
           ltac:(discriminate) ltac:(discriminate)
           eq_refl eq_refl eq_refl eq_refl eq_refl eq_refl).
Defined.

Lemma sync_stat_failure_propagates_witness :
  sync memFs (JsStr "/missing") (JsStr "/d/copy.txt") None (initial example_disk)
  = ({| world := example_disk; calls := [Call_lstatSync "/missing"] |},
     Throw (MemFs.ENOENT "/missing")).
Proof.
  exact (sync_stat_failure_propagates memFs "/missing" "/d/copy.txt" None
           (initial example_disk) example_disk (MemFs.ENOENT "/missing")
           ltac:(discriminate) ltac:(discriminate) eq_refl).
Defined.

(** A destination below a regular file: its directory cannot be created. *)
Lemma sync_failure_before_copy_witness :
  sync memFs (JsStr "/bad.bin") (JsStr "/a.txt/copy") None (initial example_disk)
  = ({| world := example_disk;
        calls := [Call_lstatSync "/bad.bin"; Call_makeDirSync "/a.txt"] |},
     Throw (MemFs.EEXIST "/a.txt")).
Proof.
  exact (sync_failure_before_copy memFs "/bad.bin" "/a.txt/copy" None
           (initial example_disk) example_disk
           (MemFs.stats_of (MemFs.File "data" (example_meta 420 11 21)))
           ltac:(discriminate) ltac:(discriminate) eq_refl eq_refl).
Defined.

(** Copying the link with [followSymlinks] false copies the link itself. *)
Lemma sync_without_resolution_copies_source_witness :
  exists rest,
    calls (fst (sync memFs (JsStr "/ln") (JsStr "/d/ln2") keep_links
                     (initial example_disk)))
    = [Call_lstatSync "/ln"; Call_makeDirSync "/d";
       Call_copyFileSync "/ln" "/d/ln2" None] ++ rest
    /\ existsb is_readlink rest = false.
Proof.
  exact (sync_without_resolution_copies_source memFs "/ln" "/d/ln2" keep_links
           (initial example_disk) example_disk example_disk
           (MemFs.stats_of (MemFs.Link "/a.txt" (example_meta 511 30 40)))
           ltac:(discriminate) ltac:(discriminate)
           eq_refl eq_refl eq_refl eq_refl).
Defined.


Lemma cpFileAsync_stat_failure_witness :
  cpFileAsync memFs "/missing" "/d/copy.txt" (normalizeOptions None)
              (example_async "/missing" "/d/copy.txt")
  = ({| fsState := {| world := example_disk; calls := [Call_lstat "/missing"] |};
        emitter := example_emitter "/missing" "/d/copy.txt" |},
     Throw (MemFs.ENOENT "/missing")).
Proof.
  exact (cpFileAsync_stat_failure memFs "/missing" "/d/copy.txt" (normalizeOptions None)
           (example_async "/missing" "/d/copy.txt")
           example_disk (MemFs.ENOENT "/missing") eq_refl).
Defined.

Lemma cpFileAsync_mkdir_failure_witness :
  snd (cpFileAsync memFs "/bad.bin" "/a.txt/copy" (normalizeOptions None)
                   (example_async "/bad.bin" "/a.txt/copy"))
  = Throw (MemFs.EEXIST "/a.txt").
Proof.
  rewrite (cpFileAsync_mkdir_failure memFs "/bad.bin" "/a.txt/copy"
             (normalizeOptions None) (example_async "/bad.bin" "/a.txt/copy")
             example_disk example_disk example_disk
             (MemFs.stats_of (MemFs.File "data" (example_meta 420 11 21)))
             {| rs_path := "/bad.bin" |} (MemFs.EEXIST "/a.txt")
             eq_refl eq_refl eq_refl eq_refl).
  reflexivity.
Defined.

(** The source is unlinked while the streams run: the copy is written, and
    the operation rejects at the second stat. *)
Lemma cpFileAsync_restat_failure_witness :
  let result :=
    cpFileAsync racyFs "/a.txt" "/d/copy.txt" (normalizeOptions None)
                (example_async "/a.txt" "/d/copy.txt") in
  snd result = Throw (MemFs.ENOENT "/a.txt")
  /\ calls (fsState (fst result))
     = [Call_lstat "/a.txt"; Call_createReadStream "/a.txt"; Call_makeDir "/d";
        Call_createWriteStream "/d/copy.txt" "w"; Call_pipe "/a.txt" "/d/copy.txt";
        Call_lstat "/a.txt"]
  /\ ProgressEmitter.writtenBytes (emitter (fst result)) = 5.
Proof.
  pose (piped := fst (pipe racyFs {| rs_path := "/a.txt" |}
                        {| ws_path := "/d/copy.txt"; ws_flags := "w" |} example_disk)).
  exact (cpFileAsync_restat_failure racyFs "/a.txt" "/d/copy.txt"
           (normalizeOptions None) (example_async "/a.txt" "/d/copy.txt")
           example_disk example_disk example_disk example_disk piped piped
           (MemFs.stats_of (MemFs.File "hello" (example_meta 420 10 20)))
           {| rs_path := "/a.txt" |}
           {| ws_path := "/d/copy.txt"; ws_flags := "w" |}
           {| readEvents := [EvData 0]; writeSettle := WClose |}
           (MemFs.ENOENT "/a.txt")
           eq_refl eq_refl eq_refl eq_refl eq_refl eq_refl eq_refl eq_refl eq_refl).
Defined.

Lemma cpFileAsync_fulfilled_witness :
  let result :=
    cpFileAsync memFs "/a.txt" "/d/copy.txt" (normalizeOptions None)
                (example_async "/a.txt" "/d/copy.txt") in
  RetArray2 = RetArray2
  /\ ProgressEmitter.writtenBytes (emitter (fst result))
     = ProgressEmitter.size (emitter (fst result))
  /\ exists front atime mtime mode,
       calls (fsState (fst result))
       = front ++ [Call_lstat "/a.txt"; Call_utimes "/d/copy.txt" atime mtime;
                   Call_chmod "/d/copy.txt" mode].
Proof.
  exact (cpFileAsync_fulfilled memFs "/a.txt" "/d/copy.txt" (normalizeOptions None)
           (example_async "/a.txt" "/d/copy.txt") RetArray2 eq_refl).
Defined.

Lemma cpFileAsync_size_is_stat_size_witness :
  ProgressEmitter.size
    (emitter (fst (cpFileAsync memFs "/bad.bin" "/d/locked.txt" (normalizeOptions None)
                               (example_async "/bad.bin" "/d/locked.txt"))))
  = 4.
Proof.
  exact (cpFileAsync_size_is_stat_size memFs "/bad.bin" "/d/locked.txt"
           (normalizeOptions None) (example_async "/bad.bin" "/d/locked.txt")
           example_disk
           (MemFs.stats_of (MemFs.File "data" (example_meta 420 11 21))) eq_refl).
Defined.

Lemma link_copy_progress_jumps_witness :
  ProgressEmitter.emitted
    (emitter (fst (cpFileAsync memFs "/ln" "/d/ln2" (normalizeOptions keep_links)
                               (example_async "/ln" "/d/ln2"))))
  = [(6, 0); (6, 6)].
Proof.
  pose (copied := fst (MemFs.copyFileSync "/ln" "/d/ln2" None example_disk)).
  exact (link_copy_progress_jumps memFs "/ln" "/d/ln2" (normalizeOptions keep_links)
           (example_async "/ln" "/d/ln2") example_disk copied
           (MemFs.stats_of (MemFs.Link "/a.txt" (example_meta 511 30 40)))
           eq_refl eq_refl eq_refl).
Defined.

Lemma streaming_progress_sequence_witness :
  ProgressEmitter.emitted
    (emitter (fst (cpFileAsync memFs "/a.txt" "/d/copy.txt" (normalizeOptions None)
                               (example_async "/a.txt" "/d/copy.txt"))))
  = [(5, 0); (5, 0); (5, 5)].
Proof.
  pose (piped := fst (MemFs.pipe {| rs_path := "/a.txt" |}
                        {| ws_path := "/d/copy.txt"; ws_flags := "w" |} example_disk)).
  exact (streaming_progress_sequence memFs "/a.txt" "/d/copy.txt"
           (normalizeOptions None) (example_async "/a.txt" "/d/copy.txt")
           example_disk example_disk example_disk example_disk piped
           (MemFs.stats_of (MemFs.File "hello" (example_meta 420 10 20)))
           {| rs_path := "/a.txt" |}
           {| ws_path := "/d/copy.txt"; ws_flags := "w" |}
           {| readEvents := [EvData 0]; writeSettle := WClose |}
           eq_refl eq_refl eq_refl eq_refl eq_refl eq_refl eq_refl eq_refl).
Defined.


(** An exclusive copy to a fresh path: the copy takes the file's times. *)
Lemma sync_copy_then_times_witness :
  let result :=
    sync memFs (JsStr "/a.txt") (JsStr "/d/copy.txt") no_overwrite
         (initial example_disk) in
  calls (fst result)
    = [Call_lstatSync "/a.txt"; Call_makeDirSync "/d";
       Call_copyFileSync "/a.txt" "/d/copy.txt" (Some COPYFILE_EXCL);
       Call_utimesSync "/d/copy.txt" 10 20]
  /\ snd result = Normal tt
  /\ MemFs.nodes (world (fst result)) !! "/d/copy.txt"
     = Some (MemFs.File "hello" (example_meta 420 10 20)).
Proof.
  pose (copied := fst (MemFs.copyFileSync "/a.txt" "/d/copy.txt" (Some COPYFILE_EXCL)
                         example_disk)).
  pose (timed := fst (MemFs.utimes "/d/copy.txt" 10 20 copied)).
  cbv zeta.
  rewrite (sync_copy_then_times memFs "/a.txt" "/d/copy.txt" no_overwrite
             (initial example_disk)
             example_disk example_disk example_disk copied timed
             (MemFs.stats_of (MemFs.File "hello" (example_meta 420 10 20)))
             "/a.txt" (Normal tt));
    try reflexivity; try discriminate.
  repeat split.
Defined.

(** Copying the link, as a link, onto the older file without overwriting. *)
Lemma link_copy_EEXIST_raises_witness :
  let result :=
    cpFileAsync memFs "/ln" "/d/old.txt"
                {| overwrite := false; followSymlinks := false |}
                (example_async "/ln" "/d/old.txt") in
  snd result = Throw (write_failure "/d/old.txt" (MemFs.EEXIST "/d/old.txt"))
  /\ fsState (fst result)
     = {| world := example_disk;
          calls := [Call_lstat "/ln";
                    Call_copyFileSync "/ln" "/d/old.txt" (Some COPYFILE_EXCL)] |}.
Proof.
  exact (link_copy_EEXIST_raises memFs "/ln" "/d/old.txt"
           {| overwrite := false; followSymlinks := false |}
           (example_async "/ln" "/d/old.txt") example_disk example_disk
           (MemFs.stats_of (MemFs.Link "/a.txt" (example_meta 511 30 40)))
           (MemFs.EEXIST "/d/old.txt")
           eq_refl eq_refl eq_refl eq_refl eq_refl eq_refl).
Defined.

(** A plain streamed copy: the destination gets the file's times and mode. *)
Lemma streaming_clean_transfer_updates_stats_witness :
  let result :=
    cpFileAsync memFs "/a.txt" "/d/copy.txt" (normalizeOptions None)
                (example_async "/a.txt" "/d/copy.txt") in
  calls (fsState (fst result))
    = [Call_lstat "/a.txt"; Call_createReadStream "/a.txt"; Call_makeDir "/d";
       Call_createWriteStream "/d/copy.txt" "w"; Call_pipe "/a.txt" "/d/copy.txt";
       Call_lstat "/a.txt"; Call_utimes "/d/copy.txt" 10 20;
       Call_chmod "/d/copy.txt" 420]
  /\ snd result = Normal RetArray2
  /\ ProgressEmitter.writtenBytes (emitter (fst result)) = 5.
Proof.
  pose (piped := fst (MemFs.pipe {| rs_path := "/a.txt" |}
                        {| ws_path := "/d/copy.txt"; ws_flags := "w" |} example_disk)).
  pose (timed := fst (MemFs.utimes "/d/copy.txt" 10 20 piped)).
  pose (moded := fst (MemFs.chmod "/d/copy.txt" 420 timed)).
  exact (streaming_clean_transfer_updates_stats memFs "/a.txt" "/d/copy.txt"
           (normalizeOptions None) (example_async "/a.txt" "/d/copy.txt")
           example_disk example_disk example_disk example_disk piped piped timed moded
           (MemFs.stats_of (MemFs.File "hello" (example_meta 420 10 20)))
           (MemFs.stats_of (MemFs.File "hello" (example_meta 420 10 20)))
           {| rs_path := "/a.txt" |}
           {| ws_path := "/d/copy.txt"; ws_flags := "w" |}
           {| readEvents := [EvData 0]; writeSettle := WClose |}
           (Normal tt) (Normal tt)
           eq_refl eq_refl eq_refl eq_refl eq_refl eq_refl eq_refl eq_refl
           eq_refl eq_refl eq_refl).
Defined.

(** Streaming onto the write-protected file: only the write side fails. *)
Lemma streaming_write_failure_stops_witness :
  let result :=
    cpFileAsync memFs "/a.txt" "/d/locked.txt" (normalizeOptions None)
                (example_async "/a.txt" "/d/locked.txt") in
  calls (fsState (fst result))
    = [Call_lstat "/a.txt"; Call_createReadStream "/a.txt"; Call_makeDir "/d";
       Call_createWriteStream "/d/locked.txt" "w";
       Call_pipe "/a.txt" "/d/locked.txt"]
  /\ snd result
     = Throw (write_failure "/d/locked.txt" (MemFs.EACCES "/d/locked.txt")).
Proof.
  exact (streaming_write_failure_stops memFs "/a.txt" "/d/locked.txt"
           (normalizeOptions None) (example_async "/a.txt" "/d/locked.txt")
           example_disk example_disk example_disk example_disk example_disk
           (MemFs.stats_of (MemFs.File "hello" (example_meta 420 10 20)))
           {| rs_path := "/a.txt" |}
           {| ws_path := "/d/locked.txt"; ws_flags := "w" |}
           {| readEvents := [EvData 0];
              writeSettle := WError (MemFs.EACCES "/d/locked.txt") |}
           (MemFs.EACCES "/d/locked.txt")
           eq_refl eq_refl eq_refl eq_refl eq_refl eq_refl eq_refl).
Defined.

(** Copying the link, as a link, to a fresh path. *)
Lemma link_copy_success_updates_stats_witness :
  let result :=
    cpFileAsync memFs "/ln" "/d/ln2" (normalizeOptions keep_links)
                (example_async "/ln" "/d/ln2") in
  calls (fsState (fst result))
    = [Call_lstat "/ln"; Call_copyFileSync "/ln" "/d/ln2" None; Call_lstat "/ln";
       Call_utimes "/d/ln2" 30 40; Call_chmod "/d/ln2" 511]
  /\ snd result = Normal RetArray2
  /\ ProgressEmitter.writtenBytes (emitter (fst result)) = 6.
Proof.
  pose (copied := fst (MemFs.copyFileSync "/ln" "/d/ln2" None example_disk)).
  pose (timed := fst (MemFs.utimes "/d/ln2" 30 40 copied)).
  pose (moded := fst (MemFs.chmod "/d/ln2" 511 timed)).
  exact (link_copy_success_updates_stats memFs "/ln" "/d/ln2"
           (normalizeOptions keep_links) (example_async "/ln" "/d/ln2")
           example_disk copied copied timed moded
           (MemFs.stats_of (MemFs.Link "/a.txt" (example_meta 511 30 40)))
           (MemFs.stats_of (MemFs.Link "/a.txt" (example_meta 511 30 40)))
           (Normal tt) (Normal tt)
           eq_refl eq_refl eq_refl eq_refl eq_refl eq_refl eq_refl).
Defined.
